(** * MPU_Gait_Classification.ino: the trigger-and-window control loop

    A shallow embedding of the sketch [MPU_Gait_Classification.ino]: the
    start-up routine [setup], the two polling loops of [loop] and the
    endless repetition of [loop] by the Arduino runtime.

    - [float] is IEEE 754 binary32, through the Standard Library's
      [SpecFloat] (24 bits of precision, [emax = 128]);
    - [int] is a 32-bit two's complement integer, a [Z] that is wrapped
      after each arithmetic operation;
    - the sensor is a list of the readings that [mpu.getEvent] will
      deliver, one per call: a run over a finite list stops where the
      sketch would block in the next call;
    - the TensorFlow Lite interpreter is an oracle, a function of everything
      that happened so far and of the input tensor;
    - [Serial] output, sensor polls and interpreter calls are logged, in
      order, in a trace;
    - [while (1);] is the terminal status [Halted];
    - an access outside a tensor has no defined behaviour in C++: the model
      does everything the sketch does before such an access, sets the
      status [Undefined] there and follows the sketch no further.
      [Undefined] marks the point where the source stops saying what the
      board does; it does not say that the board stops. *)

From Stdlib Require Import ZArith List String Lia Bool.
From Stdlib Require Import Floats.SpecFloat.
From stdpp Require Import base option list.

Open Scope Z_scope.

(** ** Numbers *)

Definition float : Type := spec_float.

Definition prec : Z := 24.
Definition emax : Z := 128.

(** [fabs] on [float] arguments, [+] and [>=] on [float]. *)
Definition fabs (v : float) : float := SFabs v.
Definition fadd (v w : float) : float := SFadd prec emax v w.
Definition fge (v w : float) : bool := SFleb w v.

(** The literal [0] converted to [float]. *)
Definition float_zero : float := S754_zero false.

Definition is_nan (v : float) : bool :=
  match v with S754_nan => true | _ => false end.

(** 32-bit [int] arithmetic. *)
Definition int_wrap (n : Z) : Z :=
  (n + 2147483648) mod 4294967296 - 2147483648.

(** ** Data *)

Record sensors_vec := { vx : float; vy : float; vz : float }.

(** What one call [mpu.getEvent(&a, &g, &temp)] returns. *)
Record Sample := {
  acceleration : sensors_vec;
  gyro : sensors_vec;
  temperature : float }.

Inductive TfLiteStatus :=
| kTfLiteOk
| kTfLiteError
| kTfLiteDelegateError
| kTfLiteApplicationError.

Definition status_ok (s : TfLiteStatus) : bool :=
  match s with kTfLiteOk => true | _ => false end.

Inductive SerialOp :=
| Serial_print (s : string)
| Serial_println (s : string)
| Serial_println_float (v : float) (digits : Z)
| Serial_println_empty.

Inductive Event :=
| EvGetEvent (s : Sample)
| EvInvoke (input : list float) (st : TfLiteStatus)
| EvSerial (op : SerialOp).

Inductive Status := Running | Halted | Undefined.

Definition is_running (s : Status) : bool :=
  match s with Running => true | _ => false end.

(** The globals of the sketch and the log of what it did. *)
Record Machine := {
  samplesRead : Z;
  tflInputTensor : list float;
  tflOutputTensor : list float;
  trace : list Event;
  status : Status }.

Definition set_samplesRead (n : Z) (m : Machine) : Machine :=
  {| samplesRead := n; tflInputTensor := tflInputTensor m;
     tflOutputTensor := tflOutputTensor m; trace := trace m;
     status := status m |}.

Definition set_tflInputTensor (t : list float) (m : Machine) : Machine :=
  {| samplesRead := samplesRead m; tflInputTensor := t;
     tflOutputTensor := tflOutputTensor m; trace := trace m;
     status := status m |}.

Definition set_tflOutputTensor (t : list float) (m : Machine) : Machine :=
  {| samplesRead := samplesRead m; tflInputTensor := tflInputTensor m;
     tflOutputTensor := t; trace := trace m; status := status m |}.

Definition set_status (s : Status) (m : Machine) : Machine :=
  {| samplesRead := samplesRead m; tflInputTensor := tflInputTensor m;
     tflOutputTensor := tflOutputTensor m; trace := trace m; status := s |}.

Definition log (e : Event) (m : Machine) : Machine :=
  {| samplesRead := samplesRead m; tflInputTensor := tflInputTensor m;
     tflOutputTensor := tflOutputTensor m; trace := trace m ++ [e];
     status := status m |}.

Definition running (m : Machine) : bool := is_running (status m).

(** [while (1);] *)
Definition halt (m : Machine) : Machine := set_status Halted m.

Definition undefined (m : Machine) : Machine := set_status Undefined m.

Definition Serial_do (op : SerialOp) (m : Machine) : Machine :=
  log (EvSerial op) m.

(** ** Constants of the sketch *)

Definition numSamples : Z := 200.

Definition GAITS : list string :=
  [ "Healthy"; "Stage 1"; "Stage 2"; "Stage 3"; "Standing"; "Turning" ]%string.

Definition NUM_GAITS : Z := 6.

(** ** Tensors

    [data.f] of a tensor is a C array: a list of fixed length. *)

(** [t[i]] *)
Definition load (t : list float) (i : Z) : option float :=
  if (0 <=? i) && (i <? Z.of_nat (length t)) then t !! Z.to_nat i else None.

(** [t[i] = v] *)
Definition store (t : list float) (i : Z) (v : float) : option (list float) :=
  if (0 <=? i) && (i <? Z.of_nat (length t))
  then Some (<[Z.to_nat i := v]> t) else None.

(** What the interpreter leaves in a tensor of fixed extent. *)
Fixpoint overwrite (new old : list float) : list float :=
  match new, old with
  | v :: new', _ :: old' => v :: overwrite new' old'
  | _, _ => old
  end.

(** What [tflInterpreter->Invoke()] answers: the status, and the contents
    it leaves in the input and in the output tensor. *)
Record InvokeResult := {
  invokeStatus : TfLiteStatus;
  input_after : list float;
  output_after : list float }.

(** What the board and [model.h] provide at start-up. *)
Record Board := {
  mpu_begin : bool;
  model_version : Z;
  model_input : list float;
  model_output : list float }.

Section Sketch.

(** [accelerationThreshold] is the tunable threshold, [0] in the sketch
    (see [accelerationThreshold_default]); [TFLITE_SCHEMA_VERSION] comes
    from [tensorflow/lite/version.h]. *)
Variable accelerationThreshold : float.
Variable TFLITE_SCHEMA_VERSION : Z.
Variable Invoke : list Event -> list float -> InvokeResult.

(** ** [setup] *)

Definition power_on : Machine :=
  {| samplesRead := numSamples; tflInputTensor := []; tflOutputTensor := [];
     trace := []; status := Running |}.

Definition setup (b : Board) : Machine :=
  let m := power_on in
  if negb (mpu_begin b) then
    halt (Serial_do (Serial_println "Failed to initialize IMU!") m)
  else
    let m := Serial_do (Serial_print "Accelerometer range set to: ") m in
    let m := Serial_do (Serial_println "+-2G") m in
    let m := Serial_do (Serial_print "Gyro range set to: ") m in
    let m := Serial_do (Serial_println "+- 2000 deg/s") m in
    let m := Serial_do (Serial_print "Filter bandwidth set to: ") m in
    let m := Serial_do (Serial_println "184 Hz") m in
    let m := Serial_do Serial_println_empty m in
    if negb (model_version b =? TFLITE_SCHEMA_VERSION) then
      halt (Serial_do (Serial_println "Model schema mismatch!") m)
    else
      set_tflOutputTensor (model_output b)
        (set_tflInputTensor (model_input b) m).

(** ** [loop] *)

(** [fabs(aX) + fabs(aY) + fabs(aZ)] *)
Definition aSum (s : Sample) : float :=
  fadd (fadd (fabs (vx (acceleration s))) (fabs (vy (acceleration s))))
       (fabs (vz (acceleration s))).

(** [aSum >= accelerationThreshold] *)
Definition significant (s : Sample) : bool :=
  fge (aSum s) accelerationThreshold.

(** One pass through the body of [while (samplesRead == numSamples)]; the
    boolean tells whether the body left the loop by [break]. *)
Definition wait_body (s : Sample) (m : Machine) : Machine * bool :=
  let m := log (EvGetEvent s) m in
  if significant s then (set_samplesRead 0 m, true) else (m, false).

Fixpoint wait_for_motion (ss : list Sample) (m : Machine)
  : list Sample * Machine :=
  match ss with
  | [] => ([], m)
  | s :: ss' =>
      if running m && (samplesRead m =? numSamples) then
        let '(m', stop) := wait_body s m in
        if stop then (ss', m') else wait_for_motion ss' m'
      else (ss, m)
  end.

(** The three stores of one row. *)
Definition write_row (t : list float) (i : Z) (g : sensors_vec)
  : option (list float) :=
  t ← store t (int_wrap (int_wrap (i * 3) + 0)) (vx g);
  t ← store t (int_wrap (int_wrap (i * 3) + 1)) (vy g);
  store t (int_wrap (int_wrap (i * 3) + 2)) (vz g).

(** What the stores of a row have left in the tensor when one of them
    falls outside it: the stores made before that one. *)
Definition write_row_partial (t : list float) (i : Z) (g : sensors_vec)
  : list float :=
  match store t (int_wrap (int_wrap (i * 3) + 0)) (vx g) with
  | None => t
  | Some t1 =>
      match store t1 (int_wrap (int_wrap (i * 3) + 1)) (vy g) with
      | None => t1
      | Some t2 => t2
      end
  end.

(** One pass through the body of the [for] loop of the report: the label
    and the separator are printed before the score is read. *)
Definition report_line (i : Z) (m : Machine) : Machine :=
  match GAITS !! Z.to_nat i with
  | None => undefined m
  | Some label =>
      let m := Serial_do (Serial_print label) m in
      let m := Serial_do (Serial_print ": ") m in
      match load (tflOutputTensor m) i with
      | None => undefined m
      | Some score => Serial_do (Serial_println_float score 6) m
      end
  end.

(** [for (int i = 0; i < NUM_GAITS; i++)]; a pass is skipped once the
    sketch has left the defined behaviour. *)
Definition report_step (m : Machine) (i : Z) : Machine :=
  if running m then report_line i m else m.

Definition report (m : Machine) : Machine :=
  let m := fold_left report_step (seqZ 0 NUM_GAITS) m in
  if running m then Serial_do Serial_println_empty m else m.

(** [tflInterpreter->Invoke()]: the call is logged with the input tensor it
    is given, and the interpreter leaves what it wants in both tensors. *)
Definition call_Invoke (m : Machine) : Machine * TfLiteStatus :=
  let r := Invoke (trace m) (tflInputTensor m) in
  let m := log (EvInvoke (tflInputTensor m) (invokeStatus r)) m in
  let m := set_tflInputTensor (overwrite (input_after r) (tflInputTensor m)) m in
  let m := set_tflOutputTensor (overwrite (output_after r) (tflOutputTensor m)) m in
  (m, invokeStatus r).

(** The body of [if (samplesRead == numSamples)]. *)
Definition run_inference (m : Machine) : Machine :=
  let '(m, invokeStatus) := call_Invoke m in
  if negb (status_ok invokeStatus) then
    halt (Serial_do (Serial_println "Invoke failed!") m)
  else report m.

(** One pass through the body of [while (samplesRead < numSamples)]. The
    sketch declares [gZ] only; [gX] and [gY] are taken to be [float]
    variables like it, so that the three channels are stored unchanged.
    The sketch does not look at the length of the tensor: when a store
    falls outside it, the reading has been polled and the stores before
    that one have been made. *)
Definition collect_body (s : Sample) (m : Machine) : Machine :=
  let m := log (EvGetEvent s) m in
  match write_row (tflInputTensor m) (samplesRead m) (gyro s) with
  | None =>
      undefined
        (set_tflInputTensor
           (write_row_partial (tflInputTensor m) (samplesRead m) (gyro s)) m)
  | Some t =>
      let m := set_tflInputTensor t m in
      let m := set_samplesRead (int_wrap (samplesRead m + 1)) m in
      if samplesRead m =? numSamples then run_inference m else m
  end.

Fixpoint collect (ss : list Sample) (m : Machine) : list Sample * Machine :=
  match ss with
  | [] => ([], m)
  | s :: ss' =>
      if running m && (samplesRead m <? numSamples) then
        collect ss' (collect_body s m)
      else (ss, m)
  end.

Definition loop (ss : list Sample) (m : Machine) : list Sample * Machine :=
  let '(ss', m') := wait_for_motion ss m in collect ss' m'.

(** The runtime's [for (;;) loop();], cut off after [fuel] calls or when
    the readings are used up. *)
Fixpoint main (fuel : nat) (ss : list Sample) (m : Machine)
  : list Sample * Machine :=
  match fuel with
  | O => (ss, m)
  | S fuel' =>
      let '(ss', m') := loop ss m in
      match ss' with
      | [] => ([], m')
      | _ :: _ => main fuel' ss' m'
      end
  end.

(** A call of [loop] that returns takes at least one reading, so
    [length ss] calls are enough (see [main_fuel]). *)
Definition run (ss : list Sample) (m : Machine) : Machine :=
  snd (main (length ss) ss m).

Definition sketch (b : Board) (ss : list Sample) : Machine :=
  run ss (setup b).

(** ** One reading at a time *)

Definition step (m : Machine) (s : Sample) : Machine :=
  if negb (running m) then m
  else if samplesRead m =? numSamples then fst (wait_body s m)
  else if samplesRead m <? numSamples then collect_body s m
  else m.

End Sketch.


(** ** Vocabulary of the properties *)

(** A machine that still calls [mpu.getEvent]. *)
Definition polling (m : Machine) : bool :=
  running m && (samplesRead m <=? numSamples).

(** The three gyroscope channels of a reading, and the row-major
    flattening of the readings of a window. *)
Definition row (s : Sample) : list float :=
  [vx (gyro s); vy (gyro s); vz (gyro s)].

Definition rows (w : list Sample) : list float := concat (map row w).

(** The input region of the model: [numSamples] rows of three floats. *)
Definition window_floats : nat := Z.to_nat (3 * numSamples).

(** A machine between two episodes, with the input tensor of the model. *)
Definition ready (m : Machine) : Prop :=
  status m = Running /\ samplesRead m = numSamples /\
  length (tflInputTensor m) = window_floats.

(** What [collect_body] does to the globals before it looks at the count:
    the reading is logged, its row is stored, the count goes up by one. *)
Definition append_row (s : Sample) (m : Machine) : Machine :=
  {| samplesRead := samplesRead m + 1;
     tflInputTensor :=
       take (Z.to_nat (3 * samplesRead m)) (tflInputTensor m) ++ row s ++
       drop (Z.to_nat (3 * samplesRead m) + 3) (tflInputTensor m);
     tflOutputTensor := tflOutputTensor m;
     trace := trace m ++ [EvGetEvent s];
     status := status m |}.

(** The same for the readings of a window, one after the other. *)
Definition append_rows (w : list Sample) (m : Machine) : Machine :=
  {| samplesRead := samplesRead m + Z.of_nat (length w);
     tflInputTensor :=
       take (Z.to_nat (3 * samplesRead m)) (tflInputTensor m) ++ rows w ++
       drop (Z.to_nat (3 * samplesRead m) + 3 * length w) (tflInputTensor m);
     tflOutputTensor := tflOutputTensor m;
     trace := trace m ++ map EvGetEvent w;
     status := status m |}.

(** What the [break] branch of [wait_body] leaves. *)
Definition triggered (t : Sample) (m : Machine) : Machine :=
  set_samplesRead 0 (log (EvGetEvent t) m).

(** The globals of [m] when the readings [ss] have been polled and nothing
    else has happened. *)
Definition log_polls (ss : list Sample) (m : Machine) : Machine :=
  {| samplesRead := samplesRead m; tflInputTensor := tflInputTensor m;
     tflOutputTensor := tflOutputTensor m;
     trace := trace m ++ map EvGetEvent ss; status := status m |}.

(** [m'] is [m] after some [Serial] output, and possibly a change of
    status. *)
Definition serial_only (m m' : Machine) : Prop :=
  samplesRead m' = samplesRead m /\
  tflInputTensor m' = tflInputTensor m /\
  tflOutputTensor m' = tflOutputTensor m /\
  exists ops, trace m' = trace m ++ map EvSerial ops.

Definition is_invoke (e : Event) : bool :=
  match e with EvInvoke _ _ => true | _ => false end.

(** The count is in its range and the input tensor is the model's. *)
Definition sane (m : Machine) : Prop :=
  0 <= samplesRead m <= numSamples /\
  length (tflInputTensor m) = window_floats.

Definition no_invoke (tr : list Event) : Prop :=
  Forall (fun e => is_invoke e = false) tr.

(** [inp] is a full window with respect to the events [pre] that came
    before: the last events of [pre] are the poll of a reading [t] that
    reaches the threshold [thr], then the polls of exactly [numSamples]
    readings [w], and [inp] is the row-major flattening of the gyroscope
    channels of [w]. *)
Definition window_before (thr : float) (pre : list Event) (inp : list float)
  : Prop :=
  exists pre' t w,
    pre = pre' ++ EvGetEvent t :: map EvGetEvent w /\
    significant thr t = true /\
    Z.of_nat (length w) = numSamples /\
    inp = rows w.

(** Every call of [Invoke] in the trace was given a full window. *)
Definition windows_ok (thr : float) (tr : list Event) : Prop :=
  forall pre inp st post,
    tr = pre ++ EvInvoke inp st :: post -> window_before thr pre inp.

(** The part of a window collected so far: the trace ends with the poll of
    the trigger reading and of [samplesRead] more readings, whose rows are
    the first [3 * samplesRead] floats of the input tensor. *)
Definition collecting_ok (thr : float) (m : Machine) : Prop :=
  exists pre t w,
    trace m = pre ++ EvGetEvent t :: map EvGetEvent w /\
    significant thr t = true /\
    Z.of_nat (length w) = samplesRead m /\
    take (3 * length w) (tflInputTensor m) = rows w.

(** What holds of every machine the sketch can reach. *)
Definition reachable_ok (thr : float) (m : Machine) : Prop :=
  sane m /\ windows_ok thr (trace m) /\
  (running m = true -> samplesRead m < numSamples -> collecting_ok thr m).

(** Neither negative nor a NaN. *)
Definition nonneg (v : float) : bool :=
  match v with
  | S754_zero _ => true
  | S754_infinity s => negb s
  | S754_finite s _ _ => negb s
  | S754_nan => false
  end.

(** ** The sketch as it is configured, and a few boards and readings *)

(** [const float accelerationThreshold = 0;] *)
Definition accelerationThreshold_default : float := float_zero.

Definition schema_version : Z := 3.

(** An interpreter that always succeeds and leaves the tensors alone, and
    one that always fails. *)
Definition Invoke_ok : list Event -> list float -> InvokeResult :=
  fun _ _ => {| invokeStatus := kTfLiteOk; input_after := [];
                output_after := [] |}.

Definition Invoke_error : list Event -> list float -> InvokeResult :=
  fun _ _ => {| invokeStatus := kTfLiteError; input_after := [];
                output_after := [] |}.

(** A board whose model has the shapes the sketch expects: 200 x 3 in,
    6 out. *)
Definition board_ok : Board :=
  {| mpu_begin := true; model_version := 3;
     model_input := repeat float_zero 600;
     model_output := repeat float_zero 6 |}.

(** A board whose model has five classes only. *)
Definition board_five_classes : Board :=
  {| mpu_begin := true; model_version := 3;
     model_input := repeat float_zero 600;
     model_output := repeat float_zero 5 |}.

Definition board_no_imu : Board :=
  {| mpu_begin := false; model_version := 3;
     model_input := repeat float_zero 600;
     model_output := repeat float_zero 6 |}.

Definition board_old_schema : Board :=
  {| mpu_begin := true; model_version := 2;
     model_input := repeat float_zero 600;
     model_output := repeat float_zero 6 |}.

Definition vec_zero : sensors_vec :=
  {| vx := float_zero; vy := float_zero; vz := float_zero |}.

(** The board at rest. *)
Definition sample_rest : Sample :=
  {| acceleration := vec_zero; gyro := vec_zero; temperature := float_zero |}.

(** 1.0f, and a reading of gyroscope [{1.0, 0.0, 0.0}]. *)
Definition float_one : float := S754_finite false 8388608 (-23).

Definition sample_turn : Sample :=
  {| acceleration := vec_zero;
     gyro := {| vx := float_one; vy := float_zero; vz := float_zero |};
     temperature := float_zero |}.

(** A reading whose x acceleration is not a number. *)
Definition sample_nan : Sample :=
  {| acceleration := {| vx := S754_nan; vy := float_zero; vz := float_zero |};
     gyro := vec_zero; temperature := float_zero |}.

(** A reading of acceleration [{1.0, 1.0, 0.0}], of L1 norm 2. *)
Definition sample_shake : Sample :=
  {| acceleration := {| vx := float_one; vy := float_one; vz := float_zero |};
     gyro := vec_zero; temperature := float_zero |}.

(** A reading at rest, which reaches the threshold 0 of the sketch, and
    200 readings of a turn: one whole episode. *)
Definition episode_turn : list Sample :=
  sample_rest :: repeat sample_turn 200.

(** The sketch as it is, on a well-behaved interpreter. *)
Definition sketch_ok (b : Board) (ss : list Sample) : Machine :=
  sketch accelerationThreshold_default schema_version Invoke_ok b ss.

(** [board_ok] after [setup]. *)
Definition machine_ready : Machine := setup schema_version board_ok.

(** The same when a reading has just fired the trigger. *)
Definition machine_collecting : Machine := triggered sample_rest machine_ready.

(** The same after the trigger reading [t] and 199 readings of a turn: one
    row is missing. *)
Definition machine_almost_full (thr : float)
    (Invoke : list Event -> list float -> InvokeResult) (t : Sample)
  : Machine :=
  run thr Invoke (t :: repeat sample_turn 199) machine_ready.

(** ** The trigger condition of the specification *)

(** The number a [float] stands for, counted in units of [2^-149], the
    smallest positive binary32 number: every finite binary32 number is a
    whole multiple of it. An infinity, a NaN and a triple that is no
    binary32 number stand for none. *)
Definition exact (v : float) : option Z :=
  match v with
  | S754_zero _ => Some 0
  | S754_finite s m e =>
      if bounded prec emax m e
      then Some (cond_Zopp s (Z.pos m) * 2 ^ (e + 149)) else None
  | _ => None
  end.

(** The energy of the specification, [|ax| + |ay| + |az|], the L1 norm of
    the acceleration: the sum of the three numbers, without any rounding,
    in the same units. *)
Definition spec_energy (s : Sample) : option Z :=
  x ← exact (vx (acceleration s));
  y ← exact (vy (acceleration s));
  z ← exact (vz (acceleration s));
  Some (Z.abs x + Z.abs y + Z.abs z).

(** The trigger condition in the words of the specification: the L1 norm
    of the acceleration, as a number, is at least the threshold. *)
Definition spec_energy_reaches (thr : float) (s : Sample) : bool :=
  match spec_energy s, exact thr with
  | Some e, Some t => t <=? e
  | _, _ => false
  end.

(** -0.5f, -1.0f and -0.49999997f, the binary32 number just above -0.5. *)
Definition float_minus_half : float := S754_finite true 8388608 (-24).
Definition float_minus_one : float := S754_finite true 8388608 (-23).
Definition float_minus_half_up : float := S754_finite true 16777215 (-25).

Definition sample_of_acceleration (ax ay az : float) : Sample :=
  {| acceleration := {| vx := ax; vy := ay; vz := az |};
     gyro := vec_zero; temperature := float_zero |}.

(** Readings of acceleration [{-0.5, 0, 0}], of L1 norm 0.5;
    [{-0.5, 0, -0.5}], of L1 norm 1; [{-1.0, -0.5, 0}], of L1 norm 1.5;
    and [{0.5, -0.49999997, 0}], of L1 norm 0.99999997. *)
Definition sample_nudge : Sample :=
  sample_of_acceleration float_minus_half float_zero float_zero.

Definition sample_edge : Sample :=
  sample_of_acceleration float_minus_half float_zero float_minus_half.

Definition sample_push : Sample :=
  sample_of_acceleration float_minus_one float_minus_half float_zero.

Definition sample_round : Sample :=
  sample_of_acceleration (S754_finite false 8388608 (-24))
    float_minus_half_up float_zero.

(** ** Vocabulary of the further properties *)

(** The readings polled, and the windows given to [Invoke], in a trace. *)
Definition poll_of (e : Event) : option Sample :=
  match e with EvGetEvent s => Some s | _ => None end.

Definition polls_of (tr : list Event) : list Sample := omap poll_of tr.

Definition invoke_of (e : Event) : option (list float) :=
  match e with EvInvoke inp _ => Some inp | _ => None end.

Definition invokes_of (tr : list Event) : list (list float) :=
  omap invoke_of tr.

(** The readings of one episode: some that do not reach the threshold, the
    one that fires the trigger, and the [numSamples] of the window. *)
Record Episode := {
  ep_quiet : list Sample;
  ep_trigger : Sample;
  ep_window : list Sample }.

Definition episode_readings (e : Episode) : list Sample :=
  ep_quiet e ++ ep_trigger e :: ep_window e.

Definition episode_ok (thr : float) (e : Episode) : Prop :=
  Forall (fun x => significant thr x = false) (ep_quiet e) /\
  significant thr (ep_trigger e) = true /\
  Z.of_nat (length (ep_window e)) = numSamples.

(** What the classifier answers at the end of the episode [e] that starts
    in the machine [m]. *)
Definition episode_answer
    (Invoke : list Event -> list float -> InvokeResult)
    (e : Episode) (m : Machine) : TfLiteStatus :=
  invokeStatus
    (Invoke (trace m ++ map EvGetEvent (episode_readings e))
       (rows (ep_window e))).

(** The lines of the report of six scores. *)
Definition report_events (s0 s1 s2 s3 s4 s5 : float) : list Event :=
  map EvSerial
    [Serial_print "Healthy"; Serial_print ": "; Serial_println_float s0 6;
     Serial_print "Stage 1"; Serial_print ": "; Serial_println_float s1 6;
     Serial_print "Stage 2"; Serial_print ": "; Serial_println_float s2 6;
     Serial_print "Stage 3"; Serial_print ": "; Serial_println_float s3 6;
     Serial_print "Standing"; Serial_print ": "; Serial_println_float s4 6;
     Serial_print "Turning"; Serial_print ": "; Serial_println_float s5 6;
     Serial_println_empty].

(** What the report prints for one class, and for the scores of an output
    tensor, class after class, as far as there is a label and a score. *)
Definition score_line (label : string) (score : float) : list SerialOp :=
  [Serial_print label; Serial_print ": "; Serial_println_float score 6].

Definition score_lines (out : list float) : list SerialOp :=
  concat (zip_with score_line GAITS out).

(** The reading [s] with the sign of its acceleration channels flipped
    where the flag says so. *)
Definition flip (b : bool) (v : float) : float := if b then SFopp v else v.

Definition flip_acceleration (nx ny nz : bool) (s : Sample) : Sample :=
  {| acceleration :=
       {| vx := flip nx (vx (acceleration s));
          vy := flip ny (vy (acceleration s));
          vz := flip nz (vz (acceleration s)) |};
     gyro := gyro s; temperature := temperature s |}.

(** Neither positive nor a NaN. *)
Definition nonpos (v : float) : bool :=
  match v with
  | S754_zero _ => true
  | S754_infinity s => s
  | S754_finite s _ _ => s
  | S754_nan => false
  end.


(** 0.5f, and a second whole episode at the threshold 0.5: a reading at
    rest, the shake that fires the trigger, 200 readings at rest. *)
Definition float_half : float := S754_finite false 8388608 (-24).

Definition episode_shake : Episode :=
  {| ep_quiet := [sample_rest]; ep_trigger := sample_shake;
     ep_window := repeat sample_rest 200 |}.

Definition episode_shake_turn : Episode :=
  {| ep_quiet := []; ep_trigger := sample_shake;
     ep_window := repeat sample_turn 200 |}.

(** * Properties *)

(** ** Numbers and tensors *)

Lemma int_wrap_small n :
  -2147483648 <= n < 2147483648 -> int_wrap n = n.
Proof. intros H. unfold int_wrap. rewrite Z.mod_small; lia. Qed.

Lemma length_overwrite new old : length (overwrite new old) = length old.
Proof.
  revert old. induction new as [|v new IH]; intros [|w old]; simpl; auto.
Qed.

Lemma insert_three {A} (l : list A) (n : nat) (a b c : A) :
  (n + 3 <= length l)%nat ->
  <[(n + 2)%nat := c]> (<[(n + 1)%nat := b]> (<[n := a]> l))
  = take n l ++ [a; b; c] ++ drop (n + 3) l.
Proof.
  revert l. induction n as [|n IH]; intros l H.
  - destruct l as [|x0 [|x1 [|x2 r]]]; simpl in *; try lia. done.
  - destruct l as [|x0 l]; simpl in *; [lia|]. f_equal. apply IH. lia.
Qed.

Lemma store_in_bounds t i v :
  0 <= i < Z.of_nat (length t) -> store t i v = Some (<[Z.to_nat i := v]> t).
Proof.
  intros [H0 H1]. unfold store.
  destruct (Z.leb_spec 0 i); [|lia]. destruct (Z.ltb_spec i (Z.of_nat (length t))); [|lia].
  done.
Qed.

Lemma store_length t i v t' : store t i v = Some t' -> length t' = length t.
Proof.
  unfold store. destruct (_ && _); [|done]. intros [= <-]. apply length_insert.
Qed.

Lemma write_row_length t i g t' :
  write_row t i g = Some t' -> length t' = length t.
Proof.
  unfold write_row. intros H.
  destruct (store t _ _) as [t1|] eqn:H1; simpl in H; [|done].
  destruct (store t1 _ _) as [t2|] eqn:H2; simpl in H; [|done].
  apply store_length in H1, H2, H. congruence.
Qed.

(** The wrapped indices of a row are the plain ones. *)
Lemma row_index i k :
  0 <= i < numSamples -> 0 <= k <= 2 ->
  int_wrap (int_wrap (i * 3) + k) = 3 * i + k.
Proof.
  unfold numSamples. intros Hi Hk.
  rewrite (int_wrap_small (i * 3)) by lia. rewrite int_wrap_small; lia.
Qed.

Lemma write_row_in_bounds t i g :
  0 <= i < numSamples -> (Z.to_nat (3 * i) + 3 <= length t)%nat ->
  write_row t i g
  = Some (take (Z.to_nat (3 * i)) t ++ [vx g; vy g; vz g]
          ++ drop (Z.to_nat (3 * i) + 3) t).
Proof.
  intros Hi Hlen. unfold write_row.
  rewrite !row_index by lia.
  rewrite store_in_bounds by lia. simpl.
  rewrite store_in_bounds by (rewrite length_insert; lia). simpl.
  rewrite store_in_bounds by (rewrite !length_insert; lia).
  f_equal.
  replace (Z.to_nat (3 * i + 0)) with (Z.to_nat (3 * i)) by lia.
  replace (Z.to_nat (3 * i + 1)) with (Z.to_nat (3 * i) + 1)%nat by lia.
  replace (Z.to_nat (3 * i + 2)) with (Z.to_nat (3 * i) + 2)%nat by lia.
  by apply insert_three.
Qed.

Lemma length_row s : length (row s) = 3%nat.
Proof. done. Qed.

Lemma length_rows w : length (rows w) = (3 * length w)%nat.
Proof.
  unfold rows. induction w as [|s w IH]; simpl; [done|].
  rewrite IH. lia.
Qed.

Lemma rows_app w1 w2 : rows (w1 ++ w2) = rows w1 ++ rows w2.
Proof. unfold rows. by rewrite map_app, concat_app. Qed.

Lemma rows_snoc w s : rows (w ++ [s]) = rows w ++ row s.
Proof. by rewrite rows_app. Qed.

(** Row-major layout: reading [i] of a window sits at [3i], [3i+1], [3i+2]. *)
Lemma rows_lookup w (i : nat) s :
  w !! i = Some s ->
  rows w !! (3 * i)%nat = Some (vx (gyro s)) /\
  rows w !! (3 * i + 1)%nat = Some (vy (gyro s)) /\
  rows w !! (3 * i + 2)%nat = Some (vz (gyro s)).
Proof.
  revert i. induction w as [|s0 w IH]; intros i H; [done|].
  destruct i as [|i]; simpl in H.
  - injection H as ->. done.
  - apply IH in H. replace (3 * S i)%nat with (S (S (S (3 * i)))) by lia.
    exact H.
Qed.

Lemma load_in_bounds t i :
  0 <= i < Z.of_nat (length t) -> load t i = t !! Z.to_nat i.
Proof.
  intros [H0 H1]. unfold load.
  destruct (Z.leb_spec 0 i); [|lia].
  destruct (Z.ltb_spec i (Z.of_nat (length t))); [done|lia].
Qed.

Lemma load_out_of_bounds t i :
  Z.of_nat (length t) <= i -> load t i = None.
Proof.
  intros H. unfold load.
  destruct (Z.ltb_spec i (Z.of_nat (length t))); [lia|].
  by rewrite andb_false_r.
Qed.

(** ** Non-negative floats *)

Lemma fabs_nonneg v : is_nan v = false -> nonneg (fabs v) = true.
Proof. by destruct v. Qed.

Lemma shr_1_nonneg mrs : 0 <= shr_m mrs -> 0 <= shr_m (shr_1 mrs).
Proof.
  destruct mrs as [m r s]. destruct m as [|[p|p|]|[p|p|]]; simpl; lia.
Qed.

Lemma iter_pos_shr_1_nonneg p mrs :
  0 <= shr_m mrs -> 0 <= shr_m (SpecFloat.iter_pos shr_1 p mrs).
Proof.
  revert mrs. induction p as [p IH|p IH|]; intros mrs H; simpl.
  - by apply IH, IH, shr_1_nonneg.
  - by apply IH, IH.
  - by apply shr_1_nonneg.
Qed.

Lemma shr_record_of_loc_m m l : shr_m (shr_record_of_loc m l) = m.
Proof. by destruct l as [|[]]. Qed.

Lemma shr_fexp_nonneg m e l :
  0 <= m -> 0 <= shr_m (shr_fexp prec emax m e l).1.
Proof.
  intros H. unfold shr_fexp, shr.
  destruct (_ - e) as [|p|p]; simpl; rewrite ?shr_record_of_loc_m; try done.
  apply iter_pos_shr_1_nonneg. by rewrite shr_record_of_loc_m.
Qed.

Lemma round_nearest_even_nonneg m l : 0 <= m -> 0 <= round_nearest_even m l.
Proof.
  intros H. unfold round_nearest_even.
  destruct l as [|[]]; try done; [destruct (Z.even m)|]; lia.
Qed.

Lemma binary_round_aux_nonneg m e l :
  0 <= m -> nonneg (binary_round_aux prec emax false m e l) = true.
Proof.
  intros H. unfold binary_round_aux.
  pose proof (shr_fexp_nonneg m e l H) as H1.
  destruct (shr_fexp prec emax m e l) as [mrs' e']. simpl in H1.
  pose proof (shr_fexp_nonneg _ e' loc_Exact
    (round_nearest_even_nonneg _ (loc_of_shr_record mrs') H1)) as H2.
  destruct (shr_fexp prec emax _ e' loc_Exact) as [mrs'' e'']. simpl in H2.
  destruct (shr_m mrs'') as [|p|p]; [done| |lia].
  by destruct (_ <=? _).
Qed.

Lemma fadd_nonneg v w :
  nonneg v = true -> nonneg w = true -> nonneg (fadd v w) = true.
Proof.
  destruct v as [sv|sv| |sv mv ev], w as [sw|sw| |sw mw ew];
    simpl; try done; try (by destruct sv, sw).
  destruct sv, sw; try done. intros _ _.
  unfold fadd, SFadd, cond_Zopp, binary_normalize.
  destruct (Z.pos _ + Z.pos _) as [|p|p] eqn:Hsum; [done| |lia].
  unfold binary_round.
  destruct (shl_align p _ _) as [mz ez].
  by apply binary_round_aux_nonneg.
Qed.

Lemma fge_zero_nonneg v : nonneg v = true -> fge v float_zero = true.
Proof. by destruct v as [s|[]| |[] m e]. Qed.

(** ** [serial_only] *)

Lemma serial_only_refl m : serial_only m m.
Proof. repeat split. exists []. simpl. by rewrite app_nil_r. Qed.

Lemma serial_only_trans m1 m2 m3 :
  serial_only m1 m2 -> serial_only m2 m3 -> serial_only m1 m3.
Proof.
  intros (Hs1 & Hi1 & Ho1 & ops1 & Ht1) (Hs2 & Hi2 & Ho2 & ops2 & Ht2).
  repeat split; try congruence.
  exists (ops1 ++ ops2). by rewrite Ht2, Ht1, map_app, app_assoc.
Qed.

Lemma serial_only_Serial_do op m : serial_only m (Serial_do op m).
Proof. repeat split. by exists [op]. Qed.

Lemma serial_only_set_status st m : serial_only m (set_status st m).
Proof. repeat split. exists []. simpl. by rewrite app_nil_r. Qed.

Lemma serial_only_report_line i m : serial_only m (report_line i m).
Proof.
  unfold report_line.
  destruct (GAITS !! Z.to_nat i); [|apply serial_only_set_status].
  destruct (load _ i).
  - repeat (eapply serial_only_trans; [|apply serial_only_Serial_do]).
    apply serial_only_refl.
  - eapply serial_only_trans; [|apply serial_only_set_status].
    repeat (eapply serial_only_trans; [|apply serial_only_Serial_do]).
    apply serial_only_refl.
Qed.

Lemma serial_only_report m : serial_only m (report m).
Proof.
  unfold report.
  assert (H : forall l m, serial_only m (fold_left report_step l m)).
  { clear m. induction l as [|i l IH]; intros m; simpl.
    - apply serial_only_refl.
    - eapply serial_only_trans; [|apply IH]. unfold report_step.
      destruct (running m); [apply serial_only_report_line|apply serial_only_refl]. }
  destruct (running _).
  - eapply serial_only_trans; [apply H|apply serial_only_Serial_do].
  - apply H.
Qed.

(** ** Calls of [Invoke] in a trace *)

Lemma no_invoke_polls w : no_invoke (map EvGetEvent w).
Proof. unfold no_invoke. induction w; simpl; by constructor. Qed.

Lemma no_invoke_serial ops : no_invoke (map EvSerial ops).
Proof. unfold no_invoke. induction ops; simpl; by constructor. Qed.

Lemma no_invoke_app_invoke tr inp st post :
  ~ no_invoke (tr ++ EvInvoke inp st :: post).
Proof.
  unfold no_invoke. rewrite Forall_app, Forall_cons. by intros (_ & ? & _).
Qed.

(** Where a call can sit in a trace that ends with events other than
    calls. *)
Lemma invoke_split tr tr2 pre inp st post :
  no_invoke tr2 ->
  tr ++ tr2 = pre ++ EvInvoke inp st :: post ->
  exists post', tr = pre ++ EvInvoke inp st :: post'.
Proof.
  intros Hno Heq.
  destruct (app_eq_inv _ _ _ _ Heq) as [(k & Htr & Hpost)|(k & Hpre & Htr2)].
  - destruct k as [|e k].
    + simpl in Hpost. subst tr2.
      by destruct (no_invoke_app_invoke [] inp st post).
    + injection Hpost as <- Hpost. by exists k.
  - subst tr2. by destruct (no_invoke_app_invoke k inp st post).
Qed.

Lemma windows_ok_app thr tr tr2 :
  windows_ok thr tr -> no_invoke tr2 -> windows_ok thr (tr ++ tr2).
Proof.
  intros Hok Hno pre inp st post Heq.
  destruct (invoke_split _ _ _ _ _ _ Hno Heq) as [post' ->].
  by eapply Hok.
Qed.

Lemma windows_ok_invoke thr tr inp st tr2 :
  windows_ok thr tr -> window_before thr tr inp -> no_invoke tr2 ->
  windows_ok thr (tr ++ EvInvoke inp st :: tr2).
Proof.
  intros Hok Hw Hno pre inp' st' post Heq.
  change (tr ++ EvInvoke inp st :: tr2)
    with (tr ++ [EvInvoke inp st] ++ tr2) in Heq.
  rewrite app_assoc in Heq.
  destruct (app_eq_inv _ _ _ _ Heq) as [(k & Htr & Hpost)|(k & Hpre & Htr2)].
  - destruct k as [|e k].
    + simpl in Hpost. subst tr2.
      by destruct (no_invoke_app_invoke [] inp' st' post).
    + injection Hpost as <- Hpost.
      destruct k as [|e k _] using rev_ind.
      * apply app_inj_tail in Htr as [<- [= <- <-]]. done.
      * rewrite app_comm_cons, app_assoc in Htr.
        apply app_inj_tail in Htr as [-> _]. by eapply Hok.
  - subst tr2. by destruct (no_invoke_app_invoke k inp' st' post).
Qed.

Lemma windows_ok_no_invoke thr tr : no_invoke tr -> windows_ok thr tr.
Proof.
  intros Hno pre inp st post ->. by destruct (no_invoke_app_invoke pre inp st post).
Qed.

Section Properties.

Variable accelerationThreshold : float.
Variable TFLITE_SCHEMA_VERSION : Z.
Variable Invoke : list Event -> list float -> InvokeResult.

Abbreviation wait_body := (wait_body accelerationThreshold).
Abbreviation wait_for_motion := (wait_for_motion accelerationThreshold).
Abbreviation significant := (significant accelerationThreshold).
Abbreviation call_Invoke := (call_Invoke Invoke).
Abbreviation run_inference := (run_inference Invoke).
Abbreviation collect_body := (collect_body Invoke).
Abbreviation collect := (collect Invoke).
Abbreviation loop := (loop accelerationThreshold Invoke).
Abbreviation main := (main accelerationThreshold Invoke).
Abbreviation run := (run accelerationThreshold Invoke).
Abbreviation step := (step accelerationThreshold Invoke).
Abbreviation setup := (setup TFLITE_SCHEMA_VERSION).
Abbreviation sketch := (sketch accelerationThreshold TFLITE_SCHEMA_VERSION Invoke).
Abbreviation window_before := (window_before accelerationThreshold).
Abbreviation windows_ok := (windows_ok accelerationThreshold).
Abbreviation collecting_ok := (collecting_ok accelerationThreshold).
Abbreviation reachable_ok := (reachable_ok accelerationThreshold).

(** ** [run] is [step], reading by reading *)

Lemma step_not_polling m s : polling m = false -> step m s = m.
Proof.
  unfold polling, step. destruct (running m); simpl; [|done].
  intros H. apply Z.leb_gt in H.
  destruct (Z.eqb_spec (samplesRead m) numSamples); [lia|].
  destruct (Z.ltb_spec (samplesRead m) numSamples); [lia|done].
Qed.

Lemma steps_not_polling ss m : polling m = false -> fold_left step ss m = m.
Proof.
  intros H. induction ss as [|s ss IH]; simpl; [done|].
  by rewrite step_not_polling.
Qed.

Lemma loop_not_polling ss m : polling m = false -> loop ss m = (ss, m).
Proof.
  unfold polling, loop. intros H.
  assert (Hw : wait_for_motion ss m = (ss, m)).
  { destruct ss as [|s ss]; simpl; [done|].
    destruct (running m); simpl in *; [|done].
    apply Z.leb_gt in H.
    destruct (Z.eqb_spec (samplesRead m) numSamples); [lia|done]. }
  rewrite Hw. destruct ss as [|s ss]; simpl; [done|].
  destruct (running m); simpl in *; [|done].
  apply Z.leb_gt in H.
  destruct (Z.ltb_spec (samplesRead m) numSamples); [lia|done].
Qed.

Lemma main_not_polling fuel ss m :
  polling m = false -> snd (main fuel ss m) = m.
Proof.
  intros H. induction fuel as [|fuel IH]; simpl; [done|].
  rewrite loop_not_polling by done. by destruct ss.
Qed.

Lemma step_idle m s :
  running m = true -> samplesRead m = numSamples ->
  step m s = (wait_body s m).1.
Proof.
  intros Hr Hi. unfold step. rewrite Hr. simpl.
  by destruct (Z.eqb_spec (samplesRead m) numSamples).
Qed.

Lemma step_collecting m s :
  running m = true -> samplesRead m < numSamples ->
  step m s = collect_body s m.
Proof.
  intros Hr Hlt. unfold step. rewrite Hr. simpl.
  destruct (Z.eqb_spec (samplesRead m) numSamples); [lia|].
  destruct (Z.ltb_spec (samplesRead m) numSamples); [done|lia].
Qed.

Lemma step_stopped m s : running m = false -> step m s = m.
Proof. intros Hr. unfold step. by rewrite Hr. Qed.

Lemma wait_for_motion_steps ss m :
  fold_left step (wait_for_motion ss m).1 (wait_for_motion ss m).2
  = fold_left step ss m.
Proof.
  revert m. induction ss as [|s ss IH]; intros m; [done|].
  cbn [wait_for_motion fold_left].
  destruct (running m) eqn:Hr; [|done].
  destruct (Z.eqb_spec (samplesRead m) numSamples) as [Heq|Hne]; [|done].
  rewrite step_idle by done. cbn [andb].
  unfold wait_body. destruct (significant s); [done|]. apply IH.
Qed.

Lemma wait_for_motion_length ss m :
  (length (wait_for_motion ss m).1 <= length ss)%nat.
Proof.
  revert m. induction ss as [|s ss IH]; intros m; simpl; [done|].
  destruct (running m && (samplesRead m =? numSamples)); simpl; [|done].
  unfold wait_body. destruct (significant s); simpl; [lia|].
  etrans; [apply IH|lia].
Qed.

Lemma wait_for_motion_idle s ss m :
  running m = true -> samplesRead m = numSamples ->
  (length (wait_for_motion (s :: ss) m).1 < length (s :: ss))%nat.
Proof.
  intros Hr Hi. simpl. rewrite Hr. simpl.
  destruct (Z.eqb_spec (samplesRead m) numSamples); [|done].
  unfold wait_body. destruct (significant s); simpl; [lia|].
  eapply Nat.le_lt_trans; [apply wait_for_motion_length|lia].
Qed.

Lemma wait_for_motion_not_idle ss m :
  samplesRead m <> numSamples -> wait_for_motion ss m = (ss, m).
Proof.
  intros H. destruct ss as [|s ss]; simpl; [done|].
  destruct (Z.eqb_spec (samplesRead m) numSamples); [done|].
  by rewrite andb_false_r.
Qed.

Lemma collect_steps ss m :
  fold_left step (collect ss m).1 (collect ss m).2 = fold_left step ss m.
Proof.
  revert m. induction ss as [|s ss IH]; intros m; [done|].
  cbn [collect fold_left].
  destruct (running m) eqn:Hr; [|done].
  destruct (Z.ltb_spec (samplesRead m) numSamples) as [Hlt|Hge]; [|done].
  rewrite step_collecting by done. apply IH.
Qed.

Lemma collect_length ss m : (length (collect ss m).1 <= length ss)%nat.
Proof.
  revert m. induction ss as [|s ss IH]; intros m; simpl; [done|].
  destruct (running m && (samplesRead m <? numSamples)); simpl; [|done].
  etrans; [apply IH|lia].
Qed.

Lemma collect_collecting s ss m :
  running m = true -> samplesRead m < numSamples ->
  (length (collect (s :: ss) m).1 < length (s :: ss))%nat.
Proof.
  intros Hr Hlt. simpl. rewrite Hr. simpl.
  destruct (Z.ltb_spec (samplesRead m) numSamples); [|lia].
  eapply Nat.le_lt_trans; [apply collect_length|lia].
Qed.

Lemma loop_steps ss m :
  fold_left step (loop ss m).1 (loop ss m).2 = fold_left step ss m.
Proof.
  unfold loop. rewrite <- (wait_for_motion_steps ss m).
  destruct (wait_for_motion ss m) as [ss' m']. simpl. apply collect_steps.
Qed.

Lemma loop_polling s ss m :
  polling m = true -> (length (loop (s :: ss) m).1 < length (s :: ss))%nat.
Proof.
  unfold polling. intros [Hr Hle]%andb_true_iff. apply Z.leb_le in Hle.
  unfold loop.
  destruct (Z.eq_dec (samplesRead m) numSamples) as [Heq|Hne].
  - pose proof (wait_for_motion_idle s ss m Hr Heq) as Hw.
    destruct (wait_for_motion (s :: ss) m) as [ss' m']. simpl in *.
    eapply Nat.le_lt_trans; [apply collect_length|done].
  - rewrite wait_for_motion_not_idle by done.
    apply collect_collecting; [done|lia].
Qed.

(** Enough fuel: the cut-off of [main] is never reached in [run]. *)
Lemma main_fuel fuel ss m :
  (length ss <= fuel)%nat -> snd (main fuel ss m) = fold_left step ss m.
Proof.
  revert ss m. induction fuel as [|fuel IH]; intros ss m Hlen.
  - destruct ss; simpl in *; [done|lia].
  - destruct (polling m) eqn:Hp.
    + simpl. pose proof (loop_steps ss m) as Hs.
      destruct ss as [|s ss].
      { unfold loop in *. simpl in *. done. }
      pose proof (loop_polling s ss m Hp) as Hl.
      destruct (loop (s :: ss) m) as [ss' m']. cbn [fst snd] in Hs, Hl.
      rewrite <- Hs. destruct ss' as [|s' ss']; [done|].
      apply IH. simpl in *. lia.
    + rewrite main_not_polling by done. by rewrite steps_not_polling.
Qed.

Lemma run_steps ss m : run ss m = fold_left step ss m.
Proof. unfold run. by apply main_fuel. Qed.

Lemma run_nil m : run [] m = m.
Proof. by rewrite run_steps. Qed.

Lemma run_cons s ss m : run (s :: ss) m = run ss (step m s).
Proof. by rewrite !run_steps. Qed.

Lemma run_app ss1 ss2 m : run (ss1 ++ ss2) m = run ss2 (run ss1 m).
Proof. by rewrite !run_steps, fold_left_app. Qed.

Lemma run_one s m : run [s] m = step m s.
Proof. by rewrite run_steps. Qed.

(** ** One inference *)

Lemma run_inference_call m :
  run_inference m
  = if negb (status_ok (call_Invoke m).2)
    then halt (Serial_do (Serial_println "Invoke failed!") (call_Invoke m).1)
    else report (call_Invoke m).1.
Proof. done. Qed.

Lemma run_inference_serial_only m :
  serial_only (call_Invoke m).1 (run_inference m).
Proof.
  rewrite run_inference_call. destruct (negb _).
  - eapply serial_only_trans;
      [apply serial_only_Serial_do|apply serial_only_set_status].
  - apply serial_only_report.
Qed.

Lemma run_inference_samplesRead m :
  samplesRead (run_inference m) = samplesRead m.
Proof. by destruct (run_inference_serial_only m) as (-> & _). Qed.

Lemma run_inference_input_length m :
  length (tflInputTensor (run_inference m)) = length (tflInputTensor m).
Proof.
  destruct (run_inference_serial_only m) as (_ & -> & _).
  simpl. apply length_overwrite.
Qed.

Lemma run_inference_output_length m :
  length (tflOutputTensor (run_inference m)) = length (tflOutputTensor m).
Proof.
  destruct (run_inference_serial_only m) as (_ & _ & -> & _).
  simpl. apply length_overwrite.
Qed.

Lemma run_inference_trace m :
  exists ops,
    trace (run_inference m)
    = trace m ++
      EvInvoke (tflInputTensor m) (call_Invoke m).2 :: map EvSerial ops.
Proof.
  destruct (run_inference_serial_only m) as (_ & _ & _ & ops & ->).
  exists ops. simpl. by rewrite <- app_assoc.
Qed.

(** ** One row *)

Lemma collect_body_append_row s m :
  0 <= samplesRead m < numSamples ->
  length (tflInputTensor m) = window_floats ->
  collect_body s m
  = if samplesRead m + 1 =? numSamples
    then run_inference (append_row s m) else append_row s m.
Proof.
  intros Hk Hlen. unfold collect_body. cbn [log tflInputTensor samplesRead].
  rewrite write_row_in_bounds;
    [|done|rewrite Hlen; unfold window_floats, numSamples in *; lia].
  change (samplesRead (set_tflInputTensor _ (log (EvGetEvent s) m)))
    with (samplesRead m).
  rewrite int_wrap_small by (unfold numSamples in *; lia).
  done.
Qed.

Lemma append_row_rows s w m :
  0 <= samplesRead m ->
  (Z.to_nat (3 * samplesRead m) + 3 * length w <= length (tflInputTensor m))%nat ->
  append_row s (append_rows w m) = append_rows (w ++ [s]) m.
Proof.
  intros Hk Hlen. unfold append_row, append_rows.
  cbn [samplesRead tflInputTensor tflOutputTensor trace status].
  set (n := Z.to_nat (3 * samplesRead m)) in *.
  set (t := tflInputTensor m) in *.
  replace (Z.to_nat (3 * (samplesRead m + Z.of_nat (length w))))
    with (length (take n t ++ rows w))
    by (rewrite length_app, length_take, length_rows; lia).
  rewrite (app_assoc (take n t)).
  rewrite take_app_length, drop_app_add, drop_drop.
  rewrite length_app, map_app, rows_snoc. cbn [length].
  rewrite <- !app_assoc.
  f_equal; [lia|]. unfold row. cbn [app]. do 6 f_equal. lia.
Qed.

Lemma append_rows_nil m :
  0 <= samplesRead m -> append_rows [] m = m.
Proof.
  intros Hk. unfold append_rows. destruct m as [k t o tr st]. simpl in *.
  rewrite Nat.add_0_r, take_drop, app_nil_r. f_equal. lia.
Qed.

(** ** Part of a window: the count stays below [numSamples] *)

Lemma run_collecting w m :
  running m = true -> 0 <= samplesRead m ->
  samplesRead m + Z.of_nat (length w) < numSamples ->
  length (tflInputTensor m) = window_floats ->
  run w m = append_rows w m.
Proof.
  intros Hr Hk. induction w as [|s w IH] using rev_ind; intros Hlt Hlen.
  - by rewrite run_nil, append_rows_nil.
  - rewrite length_app in Hlt. simpl in Hlt.
    rewrite run_app, run_one, IH by (done || lia).
    rewrite step_collecting by (simpl; (done || lia)).
    rewrite collect_body_append_row; cbn [append_rows samplesRead tflInputTensor].
    + destruct (Z.eqb_spec (samplesRead m + Z.of_nat (length w) + 1) numSamples);
        [lia|].
      apply append_row_rows; [done|].
      rewrite Hlen. unfold window_floats, numSamples in *. lia.
    + lia.
    + rewrite !length_app, length_take, length_rows, length_drop, Hlen.
      unfold window_floats, numSamples in *. lia.
Qed.

(** ** A whole window: the count reaches [numSamples] *)

Lemma run_window w m :
  running m = true -> samplesRead m = 0 ->
  Z.of_nat (length w) = numSamples ->
  length (tflInputTensor m) = window_floats ->
  run w m = run_inference (append_rows w m) /\
  tflInputTensor (append_rows w m) = rows w.
Proof.
  intros Hr Hk Hw Hlen.
  destruct w as [|s w _] using rev_ind; [done|].
  rewrite length_app in Hw. simpl in Hw.
  assert (Hlt : samplesRead m + Z.of_nat (length w) < numSamples) by lia.
  split.
  - rewrite run_app, run_one, run_collecting by (done || lia).
    rewrite step_collecting by (simpl; (done || lia)).
    rewrite collect_body_append_row; cbn [append_rows samplesRead tflInputTensor].
    + destruct (Z.eqb_spec (samplesRead m + Z.of_nat (length w) + 1) numSamples);
        [|lia].
      f_equal. apply append_row_rows; [lia|].
      rewrite Hlen. unfold window_floats, numSamples in *. lia.
    + lia.
    + rewrite !length_app, length_take, length_rows, length_drop, Hlen.
      unfold window_floats, numSamples in *. lia.
  - cbn [append_rows tflInputTensor]. rewrite Hk. simpl.
    rewrite drop_ge, app_nil_r; [done|].
    rewrite Hlen, length_app. unfold window_floats, numSamples in *.
    simpl. lia.
Qed.

(** ** The count stays in its range *)

Lemma collect_body_samplesRead s m :
  0 <= samplesRead m < numSamples ->
  samplesRead (collect_body s m) = samplesRead m \/
  samplesRead (collect_body s m) = samplesRead m + 1.
Proof.
  intros Hk. unfold collect_body.
  destruct (write_row _ _ _) as [t|]; [|by left].
  right.
  change (samplesRead (set_tflInputTensor t (log (EvGetEvent s) m)))
    with (samplesRead m).
  rewrite int_wrap_small by (unfold numSamples in *; lia).
  destruct (_ =? _); [|done]. by rewrite run_inference_samplesRead.
Qed.

Lemma step_samplesRead_range m s :
  0 <= samplesRead m <= numSamples ->
  0 <= samplesRead (step m s) <= numSamples.
Proof.
  intros Hk. unfold step.
  destruct (negb (running m)); [done|].
  destruct (Z.eqb_spec (samplesRead m) numSamples) as [Heq|Hne].
  - unfold wait_body. destruct (significant s); simpl; [|done].
    unfold numSamples. lia.
  - destruct (Z.ltb_spec (samplesRead m) numSamples) as [Hlt|Hge]; [|done].
    destruct (collect_body_samplesRead s m) as [-> | ->]; lia.
Qed.

Lemma run_samplesRead_range ss m :
  0 <= samplesRead m <= numSamples ->
  0 <= samplesRead (run ss m) <= numSamples.
Proof.
  revert m. induction ss as [|s ss IH]; intros m Hk.
  - by rewrite run_nil.
  - rewrite run_cons. by apply IH, step_samplesRead_range.
Qed.

Lemma append_row_input_length s m :
  0 <= samplesRead m < numSamples ->
  length (tflInputTensor m) = window_floats ->
  length (tflInputTensor (append_row s m)) = window_floats.
Proof.
  intros Hk Hlen. cbn [append_row tflInputTensor].
  rewrite !length_app, length_take, length_drop, length_row, Hlen.
  unfold window_floats, numSamples in *. lia.
Qed.

Lemma step_sane m s : sane m -> sane (step m s).
Proof.
  intros [Hk Hlen]. split; [by apply step_samplesRead_range|].
  unfold step. destruct (negb (running m)); [done|].
  destruct (Z.eqb_spec (samplesRead m) numSamples) as [Heq|Hne].
  - unfold wait_body. by destruct (significant s).
  - destruct (Z.ltb_spec (samplesRead m) numSamples) as [Hlt|Hge]; [|done].
    rewrite collect_body_append_row by (done || lia).
    destruct (_ =? _).
    + rewrite run_inference_input_length.
      apply append_row_input_length; (done || lia).
    + apply append_row_input_length; (done || lia).
Qed.

Lemma run_sane ss m : sane m -> sane (run ss m).
Proof.
  revert m. induction ss as [|s ss IH]; intros m Hm.
  - by rewrite run_nil.
  - rewrite run_cons. by apply IH, step_sane.
Qed.

Lemma ready_sane m : ready m -> sane m.
Proof. intros (_ & Hk & Hlen). split; [|done]. rewrite Hk. done. Qed.

(** C10. Every store into the input tensor is in bounds. A row is stored
    only when the count is below [numSamples] (at [numSamples] a step leaves
    the tensor alone); each of its three indices [samplesRead * 3 + k] is
    computed without overflow and lies in [0, 3 * numSamples) = [0, 600), so
    that with the model's input tensor of 600 floats the three stores
    succeed and the count goes up by exactly one; and the range
    [0 <= samplesRead <= numSamples] is kept by every step of the loops,
    hence by every run. *)
Theorem input_writes_in_bounds m s :
  0 <= samplesRead m <= numSamples ->
  3 * numSamples = 600 /\
  0 <= samplesRead (step m s) <= numSamples /\
  (forall ss, 0 <= samplesRead (run ss m) <= numSamples) /\
  (samplesRead m = numSamples ->
   tflInputTensor (step m s) = tflInputTensor m) /\
  (running m = true -> samplesRead m < numSamples ->
   (forall k, 0 <= k <= 2 ->
      int_wrap (int_wrap (samplesRead m * 3) + k) = samplesRead m * 3 + k /\
      0 <= samplesRead m * 3 + k < 3 * numSamples) /\
   (length (tflInputTensor m) = window_floats ->
      (exists t, write_row (tflInputTensor m) (samplesRead m) (gyro s) = Some t
                 /\ length t = window_floats) /\
      samplesRead (step m s) = samplesRead m + 1)).
Proof.
  intros Hk. split; [done|].
  split; [by apply step_samplesRead_range|].
  split; [intros ss; by apply run_samplesRead_range|].
  split.
  { intros Hi. unfold step. destruct (negb (running m)); [done|].
    destruct (Z.eqb_spec (samplesRead m) numSamples); [|done].
    unfold wait_body. by destruct (significant s). }
  intros Hr Hlt. split.
  - intros k Hk2. rewrite row_index by lia.
    unfold numSamples in *. lia.
  - intros Hlen. split.
    + rewrite write_row_in_bounds;
        [|lia|rewrite Hlen; unfold window_floats, numSamples in *; lia].
      eexists. split; [done|].
      apply (append_row_input_length s m); (done || lia).
    + rewrite step_collecting by done.
      rewrite collect_body_append_row by (done || lia).
      destruct (_ =? _); [|done]. by rewrite run_inference_samplesRead.
Qed.

(** ** A failed inference *)

(** C6. When the count reaches [numSamples] and [Invoke] returns a status
    other than [kTfLiteOk], the step logs the reading, the call and the
    line "Invoke failed!", and nothing else: no score line; the sketch is
    halted, and no further reading changes anything: nothing is polled,
    invoked or printed any more. *)
Theorem invoke_failure_halts m s t :
  running m = true -> samplesRead m + 1 = numSamples -> 0 <= samplesRead m ->
  write_row (tflInputTensor m) (samplesRead m) (gyro s) = Some t ->
  status_ok (invokeStatus (Invoke (trace m ++ [EvGetEvent s]) t)) = false ->
  trace (step m s)
  = trace m ++
    [EvGetEvent s;
     EvInvoke t (invokeStatus (Invoke (trace m ++ [EvGetEvent s]) t));
     EvSerial (Serial_println "Invoke failed!")] /\
  status (step m s) = Halted /\
  forall ss, run ss (step m s) = step m s.
Proof.
  intros Hr Hk H0 Hw Hfail.
  assert (Hstep : step m s
    = halt (Serial_do (Serial_println "Invoke failed!")
        (call_Invoke (set_samplesRead numSamples
           (set_tflInputTensor t (log (EvGetEvent s) m)))).1)).
  { rewrite step_collecting by (done || lia).
    unfold collect_body. cbn [log tflInputTensor samplesRead]. rewrite Hw.
    change (samplesRead (set_tflInputTensor t (log (EvGetEvent s) m)))
      with (samplesRead m).
    rewrite int_wrap_small by (unfold numSamples in *; lia).
    rewrite Hk. cbn [set_samplesRead samplesRead]. rewrite Z.eqb_refl.
    rewrite run_inference_call.
    cbn. by rewrite Hfail. }
  split; [|split].
  - rewrite Hstep. cbn. by rewrite <- !app_assoc.
  - by rewrite Hstep.
  - intros ss. rewrite run_steps. apply steps_not_polling.
    unfold polling, running. by rewrite Hstep.
Qed.

(** ** Start-up *)

Lemma run_halted ss m : status m = Halted -> run ss m = m.
Proof.
  intros H. rewrite run_steps. apply steps_not_polling.
  unfold polling, running. by rewrite H.
Qed.

(** C7. If [mpu.begin()] fails, or the schema version of the model is not
    [TFLITE_SCHEMA_VERSION], [setup] prints its error line (a different one
    in each case) and halts; whatever the sensor would deliver, the sketch
    stays as [setup] left it: its trace holds the lines of [setup] only, so
    no reading was polled, no inference invoked and no score printed. *)
Theorem startup_failure_halts b ss :
  mpu_begin b = false \/ model_version b <> TFLITE_SCHEMA_VERSION ->
  sketch b ss = setup b /\
  status (sketch b ss) = Halted /\
  (mpu_begin b = false ->
   trace (sketch b ss)
   = [EvSerial (Serial_println "Failed to initialize IMU!")]) /\
  (mpu_begin b = true ->
   trace (sketch b ss)
   = [EvSerial (Serial_print "Accelerometer range set to: ");
      EvSerial (Serial_println "+-2G");
      EvSerial (Serial_print "Gyro range set to: ");
      EvSerial (Serial_println "+- 2000 deg/s");
      EvSerial (Serial_print "Filter bandwidth set to: ");
      EvSerial (Serial_println "184 Hz");
      EvSerial Serial_println_empty;
      EvSerial (Serial_println "Model schema mismatch!")]) /\
  Serial_println "Failed to initialize IMU!"
  <> Serial_println "Model schema mismatch!".
Proof.
  intros Hfail.
  assert (Hh : status (setup b) = Halted).
  { unfold setup. destruct (mpu_begin b); simpl; [|done].
    destruct Hfail as [|Hv]; [done|].
    destruct (Z.eqb_spec (model_version b) TFLITE_SCHEMA_VERSION); done. }
  assert (Hs : sketch b ss = setup b) by (by apply run_halted).
  rewrite Hs. repeat split; [done| | |done].
  - intros Hb. unfold setup. by rewrite Hb.
  - intros Hb. unfold setup. rewrite Hb. simpl.
    destruct Hfail as [|Hv]; [congruence|].
    destruct (Z.eqb_spec (model_version b) TFLITE_SCHEMA_VERSION); done.
Qed.

(** ** The report *)

Lemma report_line_ok i m label score :
  GAITS !! Z.to_nat i = Some label ->
  load (tflOutputTensor m) i = Some score ->
  report_line i m
  = Serial_do (Serial_println_float score 6)
      (Serial_do (Serial_print ": ") (Serial_do (Serial_print label) m)).
Proof.
  intros Hl Hs. unfold report_line. rewrite Hl.
  cbn [Serial_do log tflOutputTensor]. by rewrite Hs.
Qed.

Lemma report_six m s0 s1 s2 s3 s4 s5 rest :
  running m = true ->
  tflOutputTensor m = s0 :: s1 :: s2 :: s3 :: s4 :: s5 :: rest ->
  trace (report m)
  = trace m ++
    map EvSerial
      [Serial_print "Healthy"; Serial_print ": "; Serial_println_float s0 6;
       Serial_print "Stage 1"; Serial_print ": "; Serial_println_float s1 6;
       Serial_print "Stage 2"; Serial_print ": "; Serial_println_float s2 6;
       Serial_print "Stage 3"; Serial_print ": "; Serial_println_float s3 6;
       Serial_print "Standing"; Serial_print ": "; Serial_println_float s4 6;
       Serial_print "Turning"; Serial_print ": "; Serial_println_float s5 6;
       Serial_println_empty] /\
  status (report m) = status m /\
  samplesRead (report m) = samplesRead m.
Proof.
  intros Hr Hout.
  assert (Hf : forall i label score m',
    GAITS !! Z.to_nat i = Some label ->
    (s0 :: s1 :: s2 :: s3 :: s4 :: s5 :: rest) !! Z.to_nat i = Some score ->
    0 <= i < 6 ->
    running m' = true ->
    tflOutputTensor m' = tflOutputTensor m ->
    report_step m' i
    = Serial_do (Serial_println_float score 6)
        (Serial_do (Serial_print ": ") (Serial_do (Serial_print label) m'))).
  { intros i label score m' Hl Hs Hi Hr' Hm'. unfold report_step. rewrite Hr'.
    apply report_line_ok; [done|].
    rewrite Hm', Hout. rewrite load_in_bounds; [done|]. simpl length. lia. }
  unfold report.
  replace (seqZ 0 NUM_GAITS) with [0; 1; 2; 3; 4; 5] by reflexivity.
  cbn [fold_left].
  rewrite (Hf 0 "Healthy"%string s0 m); [|reflexivity|reflexivity|lia|exact Hr|reflexivity].
  rewrite (Hf 1 "Stage 1"%string s1); [|reflexivity|reflexivity|lia|exact Hr|reflexivity].
  rewrite (Hf 2 "Stage 2"%string s2); [|reflexivity|reflexivity|lia|exact Hr|reflexivity].
  rewrite (Hf 3 "Stage 3"%string s3); [|reflexivity|reflexivity|lia|exact Hr|reflexivity].
  rewrite (Hf 4 "Standing"%string s4); [|reflexivity|reflexivity|lia|exact Hr|reflexivity].
  rewrite (Hf 5 "Turning"%string s5); [|reflexivity|reflexivity|lia|exact Hr|reflexivity].
  match goal with
  | |- context [if running ?x then _ else _] =>
      replace (running x) with true by (symmetry; exact Hr)
  end.
  split; [|split; reflexivity].
  cbn [trace Serial_do log map]. rewrite <- !app_assoc. reflexivity.
Qed.

(** C8, as the sketch has it. After every successful inference (the sketch
    is running, [Invoke] returns [kTfLiteOk]) on an output tensor of at
    least six floats, the report is exactly six lines, one per entry of
    [GAITS] in table order, each printed as the label, then ": ", then the
    score with 6 decimal digits, followed by one empty line; [GAITS] has
    exactly [NUM_GAITS = 6] entries. Nothing is said about a check of the
    output length of the model at start-up. *)
Theorem report_six_lines (m : Machine) (s0 s1 s2 s3 s4 s5 : float)
    (rest : list float) :
  running m = true ->
  snd (call_Invoke m) = kTfLiteOk ->
  tflOutputTensor (fst (call_Invoke m))
  = s0 :: s1 :: s2 :: s3 :: s4 :: s5 :: rest ->
  trace (run_inference m)
  = trace m ++
    EvInvoke (tflInputTensor m) kTfLiteOk ::
    map EvSerial
      [Serial_print "Healthy"; Serial_print ": "; Serial_println_float s0 6;
       Serial_print "Stage 1"; Serial_print ": "; Serial_println_float s1 6;
       Serial_print "Stage 2"; Serial_print ": "; Serial_println_float s2 6;
       Serial_print "Stage 3"; Serial_print ": "; Serial_println_float s3 6;
       Serial_print "Standing"; Serial_print ": "; Serial_println_float s4 6;
       Serial_print "Turning"; Serial_print ": "; Serial_println_float s5 6;
       Serial_println_empty] /\
  status (run_inference m) = Running /\
  Z.of_nat (length GAITS) = NUM_GAITS /\ NUM_GAITS = 6.
Proof.
  intros Hr Hok Hout. rewrite run_inference_call, Hok. cbn [status_ok negb].
  assert (Hr' : running (fst (call_Invoke m)) = true) by exact Hr.
  destruct (report_six _ _ _ _ _ _ _ _ Hr' Hout) as (Ht & Hs & _).
  split; [|split; [|split; reflexivity]].
  - rewrite Ht.
    change (trace (fst (call_Invoke m)))
      with (trace m ++ [EvInvoke (tflInputTensor m) (snd (call_Invoke m))]).
    rewrite Hok. rewrite <- app_assoc. reflexivity.
  - rewrite Hs. unfold running in Hr.
    change (status (fst (call_Invoke m))) with (status m).
    by destruct (status m).
Qed.

(** ** What every reachable machine satisfies *)

Lemma append_row_collecting_ok s m :
  sane m -> samplesRead m < numSamples ->
  collecting_ok m -> collecting_ok (append_row s m).
Proof.
  intros [Hk Hlen] Hlt (pre & t & w & Htr & Hsig & Hw & Htake).
  exists pre, t, (w ++ [s]). repeat split; [| done | |].
  - cbn [append_row trace]. rewrite Htr, map_app. by rewrite <- app_assoc.
  - cbn [append_row samplesRead]. rewrite length_app. simpl. lia.
  - cbn [append_row tflInputTensor].
    replace (Z.to_nat (3 * samplesRead m)) with (3 * length w)%nat by lia.
    rewrite Htake, rows_snoc, app_assoc.
    apply take_app_length'.
    rewrite !length_app, length_rows. simpl. lia.
Qed.

Lemma collecting_ok_full m :
  sane m -> samplesRead m = numSamples -> collecting_ok m ->
  window_before (trace m) (tflInputTensor m).
Proof.
  intros [Hk Hlen] Hfull (pre & t & w & Htr & Hsig & Hw & Htake).
  exists pre, t, w. repeat split; [done|done|lia|].
  rewrite <- Htake. symmetry. apply take_ge.
  rewrite Hlen. unfold window_floats. lia.
Qed.

Lemma step_reachable_ok m s : reachable_ok m -> reachable_ok (step m s).
Proof.
  intros (Hsane & Hwin & Hcol).
  split; [by apply step_sane|].
  destruct (running m) eqn:Hr;
    [|rewrite step_stopped by done; split; [done|intros; congruence]].
  destruct Hsane as [Hk Hlen].
  destruct (Z.eq_dec (samplesRead m) numSamples) as [Hidle|Hne].
  - rewrite step_idle by done. unfold wait_body.
    destruct (significant s) eqn:Hsig; cbn [fst].
    + split.
      * cbn [set_samplesRead log trace].
        apply windows_ok_app; [done|]. by repeat constructor.
      * intros _ _. exists (trace m), s, []. by repeat split.
    + split.
      * cbn [log trace]. apply windows_ok_app; [done|]. by repeat constructor.
      * cbn [log samplesRead]. lia.
  - assert (Hlt : samplesRead m < numSamples) by lia.
    assert (Hc1 : collecting_ok (append_row s m))
      by (apply append_row_collecting_ok; [done|done|by apply Hcol]).
    assert (Hw1 : windows_ok (trace (append_row s m))).
    { cbn [append_row trace]. apply windows_ok_app; [done|].
      by repeat constructor. }
    rewrite step_collecting by done.
    rewrite collect_body_append_row by (done || lia).
    destruct (Z.eqb_spec (samplesRead m + 1) numSamples) as [Hfull|Hpart].
    + split.
      * destruct (run_inference_trace (append_row s m)) as [ops ->].
        apply windows_ok_invoke; [done| |apply no_invoke_serial].
        apply collecting_ok_full; [|done|done].
        split; [cbn [append_row samplesRead]; lia|].
        apply append_row_input_length; (done || lia).
      * rewrite run_inference_samplesRead. cbn [append_row samplesRead]. lia.
    + by split.
Qed.

Lemma run_reachable_ok ss m : reachable_ok m -> reachable_ok (run ss m).
Proof.
  revert m. induction ss as [|s ss IH]; intros m Hm.
  - by rewrite run_nil.
  - rewrite run_cons. by apply IH, step_reachable_ok.
Qed.

Lemma setup_no_invoke b : no_invoke (trace (setup b)).
Proof.
  unfold setup. destruct (negb (mpu_begin b)); [by repeat constructor|].
  destruct (negb _); by repeat constructor.
Qed.

Lemma setup_samplesRead b : samplesRead (setup b) = numSamples.
Proof.
  unfold setup. destruct (negb (mpu_begin b)); [done|]. by destruct (negb _).
Qed.

Lemma setup_input b :
  running (setup b) = true -> tflInputTensor (setup b) = model_input b.
Proof.
  unfold setup. destruct (negb (mpu_begin b)); [done|]. by destruct (negb _).
Qed.

(** A machine that is not running is as good as reachable: it never polls
    again. *)
Lemma run_stopped ss m : running m = false -> run ss m = m.
Proof.
  intros Hr. rewrite run_steps. apply steps_not_polling.
  unfold polling. by rewrite Hr.
Qed.

Lemma ready_reachable_ok m :
  ready m -> windows_ok (trace m) -> reachable_ok m.
Proof.
  intros Hm Hw. split; [by apply ready_sane|]. split; [done|].
  destruct Hm as (_ & Hk & _). lia.
Qed.

Lemma setup_ready b :
  running (setup b) = true -> length (model_input b) = window_floats ->
  ready (setup b).
Proof.
  intros Hr Hlen. split; [|split].
  - unfold running in Hr. by destruct (status (setup b)).
  - apply setup_samplesRead.
  - by rewrite setup_input.
Qed.

Lemma sketch_reachable_ok b ss :
  length (model_input b) = window_floats ->
  windows_ok (trace (sketch b ss)) /\
  (running (sketch b ss) = true -> reachable_ok (sketch b ss)).
Proof.
  intros Hlen. unfold sketch.
  destruct (running (setup b)) eqn:Hr.
  - assert (Hok : reachable_ok (run ss (setup b))).
    { apply run_reachable_ok, ready_reachable_ok; [by apply setup_ready|].
      apply windows_ok_no_invoke, setup_no_invoke. }
    split; [apply Hok|done].
  - rewrite run_stopped by done. split; [|congruence].
    apply windows_ok_no_invoke, setup_no_invoke.
Qed.

(** ** The window given to the classifier *)

(** C1. Whatever the sensor delivers, with the model's input tensor of
    600 floats: every call of [Invoke] in the trace of the sketch was given
    exactly [numSamples = 200] rows of three gyroscope floats, the rows of
    the 200 readings polled just before the call, which themselves follow
    the poll of the reading that fired the trigger: never a part of a
    window, never more. And a running sketch calls [Invoke] exactly once in
    the step in which the count reaches [numSamples], and in no other step:
    once per episode. *)
Theorem invoke_gets_full_window b ss s :
  length (model_input b) = window_floats ->
  (forall pre inp st post,
     trace (sketch b ss) = pre ++ EvInvoke inp st :: post ->
     exists pre' t w,
       pre = pre' ++ EvGetEvent t :: map EvGetEvent w /\
       significant t = true /\
       Z.of_nat (length w) = numSamples /\
       inp = rows w /\ length inp = 600%nat) /\
  (running (sketch b ss) = true ->
   (samplesRead (sketch b ss) + 1 = numSamples ->
    exists st ops,
      trace (step (sketch b ss) s)
      = trace (sketch b ss) ++
        EvGetEvent s ::
        EvInvoke (tflInputTensor (append_row s (sketch b ss))) st ::
        map EvSerial ops) /\
   (samplesRead (sketch b ss) + 1 <> numSamples ->
    trace (step (sketch b ss) s) = trace (sketch b ss) ++ [EvGetEvent s])).
Proof.
  intros Hlen. destruct (sketch_reachable_ok b ss Hlen) as [Hwin Hreach].
  split.
  - intros pre inp st post Heq.
    destruct (Hwin pre inp st post Heq) as (pre' & t & w & -> & Hsig & Hw & ->).
    exists pre', t, w. repeat split; try done.
    rewrite length_rows. unfold numSamples in Hw. lia.
  - intros Hr. destruct (Hreach Hr) as ([Hk Hl] & _ & _).
    set (m := sketch b ss) in *. split.
    + intros Hfull. rewrite step_collecting by (done || lia).
      rewrite collect_body_append_row by (done || lia).
      destruct (Z.eqb_spec (samplesRead m + 1) numSamples); [|done].
      destruct (run_inference_trace (append_row s m)) as [ops ->].
      eexists _, ops. cbn [append_row trace]. by rewrite <- app_assoc.
    + intros Hpart.
      destruct (Z.eq_dec (samplesRead m) numSamples) as [Hidle|Hne].
      * rewrite step_idle by done. unfold wait_body.
        by destruct (significant s).
      * rewrite step_collecting by (done || lia).
        rewrite collect_body_append_row by (done || lia).
        by destruct (Z.eqb_spec (samplesRead m + 1) numSamples).
Qed.

(** ** One episode at a time *)

(** C5. In every machine the sketch can reach, while an episode is being
    collected ([samplesRead < numSamples]) the trigger loop is not entered:
    it takes no reading and evaluates nothing, and the next reading, whatever
    its acceleration, only advances the count by one, so no episode starts
    inside another. And the windows of two calls of [Invoke] do not overlap:
    the window of the later call is made of readings polled after the
    earlier call and after the trigger reading that follows it. *)
Theorem no_trigger_while_collecting b ss :
  length (model_input b) = window_floats ->
  (running (sketch b ss) = true -> samplesRead (sketch b ss) < numSamples ->
   forall s rest,
     wait_for_motion (s :: rest) (sketch b ss) = (s :: rest, sketch b ss) /\
     samplesRead (step (sketch b ss) s) = samplesRead (sketch b ss) + 1 /\
     step (sketch b ss) s <> triggered s (sketch b ss)) /\
  (forall pre a sa mid c sc post,
     trace (sketch b ss)
     = pre ++ EvInvoke a sa :: mid ++ EvInvoke c sc :: post ->
     exists mid' t w,
       mid = mid' ++ EvGetEvent t :: map EvGetEvent w /\
       Z.of_nat (length w) = numSamples /\ c = rows w).
Proof.
  intros Hlen. destruct (sketch_reachable_ok b ss Hlen) as [Hwin Hreach].
  split.
  - intros Hr Hlt s rest. destruct (Hreach Hr) as ([Hk Hl] & _ & _).
    set (m := sketch b ss) in *.
    assert (Hstep : samplesRead (step m s) = samplesRead m + 1).
    { rewrite step_collecting by done.
      rewrite collect_body_append_row by (done || lia).
      destruct (_ =? _); [|done]. by rewrite run_inference_samplesRead. }
    split; [|split; [done|]].
    + apply wait_for_motion_not_idle. lia.
    + intros Heq. rewrite Heq in Hstep. simpl in Hstep. lia.
  - intros pre a sa mid c sc post Heq.
    change (pre ++ EvInvoke a sa :: mid ++ EvInvoke c sc :: post)
      with (pre ++ [EvInvoke a sa] ++ mid ++ EvInvoke c sc :: post) in Heq.
    rewrite !app_assoc in Heq. rewrite <- (app_assoc pre) in Heq.
    destruct (Hwin _ _ _ _ Heq) as (pre' & t & w & Hpre & _ & Hw & ->).
    rewrite app_assoc in Hpre.
    destruct (app_eq_inv _ _ _ _ Hpre) as [(k & Hk1 & Hk2)|(k & Hk1 & Hk2)].
    + destruct k as [|e k _] using rev_ind.
      * rewrite app_nil_r in Hk1. simpl in Hk2. by exists [], t, w.
      * rewrite app_assoc in Hk1. apply app_inj_tail in Hk1 as [_ <-].
        exfalso. apply (no_invoke_app_invoke k a sa mid).
        change (k ++ EvInvoke a sa :: mid) with (k ++ [EvInvoke a sa] ++ mid).
        rewrite app_assoc, <- Hk2.
        change (EvGetEvent t :: map EvGetEvent w)
          with (map EvGetEvent (t :: w)).
        apply no_invoke_polls.
    + by exists k, t, w.
Qed.

(** ** The rows of a window *)

Lemma rows_gyro w w' : map gyro w' = map gyro w -> rows w' = rows w.
Proof.
  revert w'. induction w as [|s w IH]; intros [|s' w'] H; try done.
  injection H as Hs Hw. unfold rows. cbn [map concat].
  fold (rows w') (rows w). rewrite (IH w' Hw). unfold row. by rewrite Hs.
Qed.

Lemma run_triggered t w m :
  ready m -> significant t = true -> run (t :: w) m = run w (triggered t m).
Proof.
  intros (Hst & Hk & _) Hsig. rewrite run_cons. f_equal.
  rewrite step_idle; [|unfold running; by rewrite Hst|done].
  unfold wait_body. by rewrite Hsig.
Qed.

(** C2. From a machine between two episodes, after the reading that fires
    the trigger, the readings [w] polled next fill the window in arrival
    order: while the episode is collecting (fewer than [numSamples]
    readings) the count is [length w], the input tensor is the row-major
    flattening of their gyroscope channels followed by the untouched rest of
    the tensor, so that reading [i] sits at the flattened indices [3i],
    [3i+1], [3i+2]; the tensor does not depend on the acceleration (or
    temperature) of the readings; and when [w] has [numSamples] readings
    the classifier is called with exactly their rows. *)
Theorem rows_in_arrival_order m t w :
  ready m -> significant t = true -> Z.of_nat (length w) <= numSamples ->
  (forall (i : nat) s, w !! i = Some s ->
     rows w !! (3 * i)%nat = Some (vx (gyro s)) /\
     rows w !! (3 * i + 1)%nat = Some (vy (gyro s)) /\
     rows w !! (3 * i + 2)%nat = Some (vz (gyro s))) /\
  (Z.of_nat (length w) < numSamples ->
   samplesRead (run (t :: w) m) = Z.of_nat (length w) /\
   running (run (t :: w) m) = true /\
   tflInputTensor (run (t :: w) m)
   = rows w ++ drop (3 * length w) (tflInputTensor m) /\
   (forall (i : nat) s, w !! i = Some s ->
      load (tflInputTensor (run (t :: w) m)) (3 * Z.of_nat i)
      = Some (vx (gyro s)) /\
      load (tflInputTensor (run (t :: w) m)) (3 * Z.of_nat i + 1)
      = Some (vy (gyro s)) /\
      load (tflInputTensor (run (t :: w) m)) (3 * Z.of_nat i + 2)
      = Some (vz (gyro s))) /\
   (forall w', map gyro w' = map gyro w ->
      tflInputTensor (run (t :: w') m) = tflInputTensor (run (t :: w) m))) /\
  (Z.of_nat (length w) = numSamples ->
   exists st ops,
     trace (run (t :: w) m)
     = trace m ++ EvGetEvent t :: map EvGetEvent w ++
       EvInvoke (rows w) st :: map EvSerial ops).
Proof.
  intros Hm Hsig Hle.
  pose proof Hm as (Hst & Hk & Hlen).
  assert (Hr : running (triggered t m) = true)
    by (unfold running; simpl; by rewrite Hst).
  assert (Hpartial : forall v, Z.of_nat (length v) < numSamples ->
    run (t :: v) m = append_rows v (triggered t m)).
  { intros v Hv. rewrite run_triggered by done.
    apply run_collecting; simpl; (done || lia). }
  split; [apply rows_lookup|]. split.
  - intros Hlt. rewrite (Hpartial w Hlt).
    assert (Ht : tflInputTensor (append_rows w (triggered t m))
                 = rows w ++ drop (3 * length w) (tflInputTensor m)) by done.
    split; [simpl; lia|]. split; [done|]. split; [done|]. split.
    + intros i s Hi. rewrite Ht.
      destruct (rows_lookup w i s Hi) as (Hx & Hy & Hz).
      pose proof (lookup_lt_Some _ _ _ Hi) as Hlti.
      rewrite !load_in_bounds
        by (rewrite length_app, length_rows; lia).
      replace (Z.to_nat (3 * Z.of_nat i)) with (3 * i)%nat by lia.
      replace (Z.to_nat (3 * Z.of_nat i + 1)) with (3 * i + 1)%nat by lia.
      replace (Z.to_nat (3 * Z.of_nat i + 2)) with (3 * i + 2)%nat by lia.
      rewrite !lookup_app_l by (rewrite length_rows; lia). done.
    + intros w' Hw'.
      assert (Hl' : length w' = length w).
      { rewrite <- (length_map gyro w'), Hw'. apply length_map. }
      rewrite (Hpartial w') by lia.
      cbn [append_rows tflInputTensor]. by rewrite (rows_gyro w w'), Hl'.
  - intros Hfull. rewrite run_triggered by done.
    destruct (run_window w (triggered t m)) as [-> Hrows];
      [done|done|done|done|].
    destruct (run_inference_trace (append_rows w (triggered t m))) as [ops ->].
    rewrite Hrows. eexists _, ops. cbn [append_rows triggered trace
      set_samplesRead log]. by rewrite <- !app_assoc.
Qed.

(** ** Between two episodes *)

Lemma run_quiet quiet m :
  running m = true -> samplesRead m = numSamples ->
  Forall (fun x => significant x = false) quiet ->
  running (run quiet m) = true /\ samplesRead (run quiet m) = numSamples.
Proof.
  intros Hr Hk Hq. revert m Hr Hk.
  induction Hq as [|x quiet Hx _ IH]; intros m Hr Hk.
  - by rewrite run_nil.
  - rewrite run_cons. apply IH.
    + rewrite step_idle by done. unfold wait_body. by rewrite Hx.
    + rewrite step_idle by done. unfold wait_body. by rewrite Hx.
Qed.

(** C4, as the sketch has it. The step in which the count reaches
    [numSamples] runs the inference; when it completes (the sketch is still
    running), [samplesRead] is [numSamples], which is how the sketch encodes
    "no episode active": the count is not set back to 0 there, and stays at
    [numSamples] over every reading below the threshold. It is set to 0 by
    the next reading that fires the trigger, so that the buffer index of the
    next episode starts at 0 again. *)
Theorem idle_is_numSamples m s quiet t :
  running m = true -> sane m -> samplesRead m + 1 = numSamples ->
  running (step m s) = true ->
  Forall (fun x => significant x = false) quiet -> significant t = true ->
  samplesRead (step m s) = numSamples /\
  samplesRead (run quiet (step m s)) = numSamples /\
  run (quiet ++ [t]) (step m s) = triggered t (run quiet (step m s)) /\
  samplesRead (run (quiet ++ [t]) (step m s)) = 0.
Proof.
  intros Hr [Hk Hlen] Hfull Hr' Hq Hsig.
  assert (Hs : samplesRead (step m s) = numSamples).
  { rewrite step_collecting by (done || lia).
    rewrite collect_body_append_row by (done || lia).
    destruct (Z.eqb_spec (samplesRead m + 1) numSamples); [|done].
    rewrite run_inference_samplesRead. simpl. lia. }
  destruct (run_quiet quiet (step m s) Hr' Hs Hq) as [Hrq Hsq].
  assert (Ht : run (quiet ++ [t]) (step m s)
               = triggered t (run quiet (step m s))).
  { rewrite run_app, run_one, step_idle by done.
    unfold wait_body. by rewrite Hsig. }
  repeat split; try done. by rewrite Ht.
Qed.

End Properties.

(** * The trigger and the L1 norm *)

(** ** Binary32 numbers and the numbers they stand for *)

Lemma digits2_pos_bounds p :
  2 ^ (Z.pos (digits2_pos p) - 1) <= Z.pos p < 2 ^ Z.pos (digits2_pos p).
Proof.
  induction p as [p IH|p IH|]; cbn [digits2_pos]; [| |done].
  - rewrite Pos2Z.inj_succ.
    replace (Z.succ (Z.pos (digits2_pos p)) - 1)
      with (Z.succ (Z.pos (digits2_pos p) - 1)) by lia.
    rewrite !Z.pow_succ_r by lia. lia.
  - rewrite Pos2Z.inj_succ.
    replace (Z.succ (Z.pos (digits2_pos p)) - 1)
      with (Z.succ (Z.pos (digits2_pos p) - 1)) by lia.
    rewrite !Z.pow_succ_r by lia. lia.
Qed.

(** A binary32 number has an exponent of at least -149 and a mantissa of
    at most 24 bits, of exactly 24 bits unless the exponent is -149. *)
Lemma bounded_inv m e :
  bounded prec emax m e = true ->
  -149 <= e /\ Z.pos m < 16777216 /\ (e = -149 \/ 8388608 <= Z.pos m).
Proof.
  unfold bounded, canonical_mantissa, fexp, emin, prec, emax.
  intros [Hc _]%andb_true_iff. apply Z.eqb_eq in Hc.
  pose proof (digits2_pos_bounds m) as [Hlo Hhi].
  set (d := Z.pos (digits2_pos m)) in *.
  assert (Hd : 0 < d <= 24) by lia.
  split; [lia|]. split.
  - eapply Z.lt_le_trans; [exact Hhi|].
    change 16777216 with (2 ^ 24). apply Z.pow_le_mono_r; lia.
  - destruct (Z.eq_dec e (-149)) as [He|He]; [by left|right].
    assert (Hd24 : d = 24) by lia. rewrite Hd24 in Hlo. exact Hlo.
Qed.

Lemma exact_lt_exponent m1 e1 m2 e2 :
  bounded prec emax m1 e1 = true -> bounded prec emax m2 e2 = true ->
  e1 < e2 ->
  Z.pos m1 * 2 ^ (e1 + 149) < Z.pos m2 * 2 ^ (e2 + 149).
Proof.
  intros (H1 & Hm1 & _)%bounded_inv (H2 & _ & Hm2)%bounded_inv Hlt.
  destruct Hm2 as [->|Hm2]; [lia|].
  replace (e2 + 149) with ((e1 + 149) + (e2 - e1)) by lia.
  rewrite (Z.pow_add_r 2 (e1 + 149) (e2 - e1)) by lia.
  assert (Hq : 2 ^ 1 <= 2 ^ (e2 - e1)) by (apply Z.pow_le_mono_r; lia).
  assert (Hp : 0 < 2 ^ (e1 + 149)) by (apply Z.pow_pos_nonneg; lia).
  change (2 ^ 1) with 2 in Hq.
  set (P := 2 ^ (e1 + 149)) in *. set (Q := 2 ^ (e2 - e1)) in *.
  assert (H3 : P * 2 <= P * Q) by (apply Z.mul_le_mono_nonneg_l; lia).
  assert (H4 : 8388608 * (P * Q) <= Z.pos m2 * (P * Q))
    by (apply Z.mul_le_mono_nonneg_r; lia).
  assert (H5 : Z.pos m1 * P < 16777216 * P)
    by (apply Z.mul_lt_mono_pos_r; lia).
  lia.
Qed.

Lemma exact_finite s m e x :
  exact (S754_finite s m e) = Some x ->
  bounded prec emax m e = true /\
  x = cond_Zopp s (Z.pos m) * 2 ^ (e + 149) /\
  0 < Z.pos m * 2 ^ (e + 149).
Proof.
  cbn [exact]. destruct (bounded prec emax m e) eqn:Hb; [|done].
  intros [= <-]. split; [done|]. split; [done|].
  destruct (bounded_inv m e Hb) as (He & _).
  assert (0 < 2 ^ (e + 149)) by (apply Z.pow_pos_nonneg; lia). lia.
Qed.

(** [<=] on [float] is [<=] on the numbers. *)
Lemma SFleb_exact a b x y :
  exact a = Some x -> exact b = Some y -> (SFleb a b = true <-> x <= y).
Proof.
  destruct a as [sa| | |sa ma ea], b as [sb| | |sb mb eb]; try done.
  - intros [= <-] [= <-]. done.
  - intros [= <-] (_ & -> & Hpos)%exact_finite.
    unfold SFleb, SFcompare. destruct sb; cbn [cond_Zopp]; split;
      intros; (done || lia).
  - intros (_ & -> & Hpos)%exact_finite [= <-].
    unfold SFleb, SFcompare. destruct sa; cbn [cond_Zopp]; split;
      intros; (done || lia).
  - intros (Hba & -> & Hpa)%exact_finite (Hbb & -> & Hpb)%exact_finite.
    unfold SFleb, SFcompare.
    change (Pos.compare_cont Eq ma mb) with (Pos.compare ma mb).
    destruct sa, sb; cbn [cond_Zopp].
    + destruct (Z.compare_spec ea eb) as [->|Hlt|Hgt].
      * destruct (Pos.compare_spec ma mb) as [->|Hm|Hm]; cbn [CompOpp];
          split; intros; (done || nia).
      * pose proof (exact_lt_exponent _ _ _ _ Hba Hbb Hlt).
        split; intros; (done || lia).
      * pose proof (exact_lt_exponent _ _ _ _ Hbb Hba ltac:(lia)).
        split; intros; (done || lia).
    + split; intros; (done || lia).
    + split; intros; (done || lia).
    + destruct (Z.compare_spec ea eb) as [->|Hlt|Hgt].
      * destruct (Pos.compare_spec ma mb) as [->|Hm|Hm];
          split; intros; (done || nia).
      * pose proof (exact_lt_exponent _ _ _ _ Hba Hbb Hlt).
        split; intros; (done || lia).
      * pose proof (exact_lt_exponent _ _ _ _ Hbb Hba ltac:(lia)).
        split; intros; (done || lia).
Qed.

Section Trigger.

Variable accelerationThreshold : float.
Variable Invoke : list Event -> list float -> InvokeResult.

Abbreviation wait_body := (wait_body accelerationThreshold).
Abbreviation wait_for_motion := (wait_for_motion accelerationThreshold).
Abbreviation significant := (significant accelerationThreshold).
Abbreviation collect_body := (collect_body Invoke).
Abbreviation run := (run accelerationThreshold Invoke).
Abbreviation step := (step accelerationThreshold Invoke).

(** ** Waiting for motion *)

Lemma log_polls_nil m : log_polls [] m = m.
Proof. unfold log_polls. destruct m. simpl. by rewrite app_nil_r. Qed.

Lemma log_polls_cons s ss m :
  log_polls (s :: ss) m = log_polls ss (log (EvGetEvent s) m).
Proof. unfold log_polls. simpl. by rewrite <- app_assoc. Qed.

Lemma wait_for_motion_quiet quiet rest m :
  running m = true -> samplesRead m = numSamples ->
  Forall (fun x => significant x = false) quiet ->
  wait_for_motion (quiet ++ rest) m = wait_for_motion rest (log_polls quiet m).
Proof.
  intros Hr Hk Hq. revert m Hr Hk.
  induction Hq as [|x quiet Hx _ IH]; intros m Hr Hk.
  - by rewrite log_polls_nil.
  - cbn [app wait_for_motion]. rewrite Hr.
    destruct (Z.eqb_spec (samplesRead m) numSamples); [|done].
    cbn [andb]. unfold wait_body. rewrite Hx.
    rewrite log_polls_cons. by apply IH.
Qed.

Lemma wait_for_motion_trigger t rest m :
  running m = true -> samplesRead m = numSamples -> significant t = true ->
  wait_for_motion (t :: rest) m = (rest, triggered t m).
Proof.
  intros Hr Hk Ht. cbn [wait_for_motion]. rewrite Hr.
  destruct (Z.eqb_spec (samplesRead m) numSamples); [|done].
  cbn [andb]. unfold wait_body. by rewrite Ht.
Qed.

(** The trigger loop sets the count to 0 only by taking a reading. *)
Lemma wait_for_motion_reset ss m :
  samplesRead m = numSamples ->
  samplesRead (snd (wait_for_motion ss m)) = 0 ->
  (length (fst (wait_for_motion ss m)) < length ss)%nat.
Proof.
  revert m. induction ss as [|x ss IH]; intros m Hk.
  - cbn. rewrite Hk. done.
  - cbn [wait_for_motion].
    destruct (running m && (samplesRead m =? numSamples)).
    + unfold wait_body. destruct (significant x).
      * cbn. lia.
      * intros H0. specialize (IH (log (EvGetEvent x) m) Hk H0).
        cbn [length]. lia.
    + cbn. rewrite Hk. done.
Qed.

(** C3, as the sketch has it. For every reading [s] the trigger loop comes
    to, after readings that did not reach the threshold: the loop leaves by
    [break] at [s] (every reading up to [s] polled in order, [samplesRead]
    set to 0, the readings after [s] not touched), if and only if
    [fabs(aX) + fabs(aY) + fabs(aZ) >= accelerationThreshold] holds as the
    sketch computes it, in binary32 with each addition rounded, and no
    episode is active ([samplesRead = numSamples]); the same holds of the
    sketch given the one reading [s]. Whenever the sum so computed is the
    L1 norm itself (no addition has rounded), this is the condition of the
    specification: the L1 norm, as a number, is at least the threshold. *)
Theorem trigger_iff (m : Machine) (quiet : list Sample) (s : Sample)
    (rest : list Sample) :
  running m = true -> sane m ->
  Forall (fun x => significant x = false) quiet ->
  (wait_for_motion (quiet ++ s :: rest) m
   = (rest, triggered s (log_polls quiet m))
   <-> significant s = true /\ samplesRead m = numSamples) /\
  (run [s] m = triggered s m
   <-> significant s = true /\ samplesRead m = numSamples) /\
  (forall e t : Z,
     spec_energy s = Some e -> exact (aSum s) = Some e ->
     exact accelerationThreshold = Some t ->
     (significant s = true <-> t <= e) /\
     significant s = spec_energy_reaches accelerationThreshold s).
Proof.
  intros Hr [Hk Hlen] Hq. split; [|split].
  - split.
    + intros Hw.
      destruct (Z.eq_dec (samplesRead m) numSamples) as [Heq|Hne].
      * split; [|done]. destruct (significant s) eqn:Hs; [done|exfalso].
        rewrite wait_for_motion_quiet in Hw by done.
        cbn [wait_for_motion] in Hw.
        change (running (log_polls quiet m)) with (running m) in Hw.
        change (samplesRead (log_polls quiet m)) with (samplesRead m) in Hw.
        rewrite Hr in Hw.
        destruct (Z.eqb_spec (samplesRead m) numSamples); [|done].
        cbn [andb] in Hw. unfold wait_body in Hw. rewrite Hs in Hw.
        pose proof (wait_for_motion_reset rest
                      (log (EvGetEvent s) (log_polls quiet m)) Heq) as Hl.
        rewrite Hw in Hl. cbn in Hl. specialize (Hl eq_refl). lia.
      * exfalso.
        assert (Hw' : wait_for_motion (quiet ++ s :: rest) m
                      = (quiet ++ s :: rest, m)).
        { destruct (quiet ++ s :: rest) as [|x l]; [done|].
          cbn [wait_for_motion].
          destruct (Z.eqb_spec (samplesRead m) numSamples); [done|].
          by rewrite andb_false_r. }
        rewrite Hw' in Hw. apply (f_equal (fun p => length (fst p))) in Hw.
        cbn [fst] in Hw. rewrite length_app in Hw. cbn [length] in Hw. lia.
    + intros [Hs Heq]. rewrite wait_for_motion_quiet by done.
      by apply wait_for_motion_trigger.
  - rewrite run_one. split.
    + intros Hstep.
      assert (H0 : samplesRead (step m s) = 0) by (by rewrite Hstep).
      destruct (Z.eq_dec (samplesRead m) numSamples) as [Heq|Hne].
      * split; [|done]. rewrite step_idle in H0 by done.
        unfold wait_body in H0. destruct (significant s); [done|].
        simpl in H0. rewrite Heq in H0. done.
      * rewrite step_collecting in H0 by (done || lia).
        rewrite collect_body_append_row in H0 by (done || lia).
        destruct (_ =? _) in H0;
          [rewrite run_inference_samplesRead in H0|]; simpl in H0; lia.
    + intros [Hsig Heq]. rewrite step_idle by done.
      unfold wait_body. by rewrite Hsig.
  - intros e t Hl1 Hsum Hthr.
    assert (Hiff : significant s = true <-> t <= e).
    { unfold significant, fge. by apply SFleb_exact. }
    split; [done|].
    unfold spec_energy_reaches. rewrite Hl1, Hthr.
    destruct (Z.leb_spec t e) as [Hle|Hgt], (significant s); try done.
    + by apply Hiff.
    + assert (t <= e) by (by apply Hiff). lia.
Qed.

End Trigger.

(** * The sketch with its threshold of 0 *)

Section DefaultThreshold.

Variable Invoke : list Event -> list float -> InvokeResult.

(** C9, as the sketch has it. With the threshold of the sketch, 0, every
    reading whose three acceleration channels are numbers (none is a NaN)
    satisfies [fabs(aX) + fabs(aY) + fabs(aZ) >= accelerationThreshold],
    the sum of absolute values being neither negative nor a NaN; hence a
    running sketch between two episodes starts an episode on the first such
    reading it polls. *)
Theorem default_threshold_triggers m s :
  is_nan (vx (acceleration s)) = false ->
  is_nan (vy (acceleration s)) = false ->
  is_nan (vz (acceleration s)) = false ->
  accelerationThreshold_default = float_zero /\
  fge (aSum s) accelerationThreshold_default = true /\
  (running m = true -> samplesRead m = numSamples ->
   step accelerationThreshold_default Invoke m s = triggered s m /\
   samplesRead (step accelerationThreshold_default Invoke m s) = 0).
Proof.
  intros Hx Hy Hz.
  assert (Hsig : fge (aSum s) accelerationThreshold_default = true).
  { apply fge_zero_nonneg. unfold aSum.
    repeat apply fadd_nonneg; by apply fabs_nonneg. }
  split; [done|]. split; [done|].
  intros Hr Hk.
  assert (Hstep : step accelerationThreshold_default Invoke m s
                  = triggered s m).
  { rewrite step_idle by done. unfold wait_body, significant.
    by rewrite Hsig. }
  split; [done|]. by rewrite Hstep.
Qed.

End DefaultThreshold.

(** * The theorems at work *)

Lemma invoke_gets_full_window_witness :
  length (model_input board_ok) = window_floats /\
  existsb is_invoke (trace (sketch accelerationThreshold_default schema_version Invoke_ok
             board_ok episode_turn)) = true /\
  forall pre inp st post,
    trace (sketch accelerationThreshold_default schema_version Invoke_ok
             board_ok episode_turn) = pre ++ EvInvoke inp st :: post ->
    length inp = 600%nat.
Proof.
  assert (H : length (model_input board_ok) = window_floats)
    by (vm_compute; reflexivity).
  split; [exact H|]. split; [vm_compute; reflexivity|].
  intros pre inp st post Heq.
  destruct (invoke_gets_full_window accelerationThreshold_default
              schema_version Invoke_ok board_ok episode_turn sample_rest H)
    as [Hw _].
  destruct (Hw pre inp st post Heq) as (? & ? & ? & _ & _ & _ & _ & Hl).
  exact Hl.
Defined.

Lemma rows_in_arrival_order_witness :
  ready machine_ready /\
  significant accelerationThreshold_default sample_rest = true /\
  tflInputTensor
    (run accelerationThreshold_default Invoke_ok
       [sample_rest; sample_turn; sample_rest; sample_turn] machine_ready)
  = rows [sample_turn; sample_rest; sample_turn]
    ++ drop 9 (tflInputTensor machine_ready).
Proof.
  assert (Hm : ready machine_ready)
    by (repeat split; vm_compute; reflexivity).
  assert (Hs : significant accelerationThreshold_default sample_rest = true)
    by (vm_compute; reflexivity).
  split; [exact Hm|]. split; [exact Hs|].
  assert (Hle : Z.of_nat (length [sample_turn; sample_rest; sample_turn])
                <= numSamples) by (vm_compute; discriminate).
  destruct (rows_in_arrival_order accelerationThreshold_default Invoke_ok
              machine_ready sample_rest [sample_turn; sample_rest; sample_turn]
              Hm Hs Hle) as (_ & Hpart & _).
  assert (Hlt : Z.of_nat (length [sample_turn; sample_rest; sample_turn])
                < numSamples) by (vm_compute; reflexivity).
  destruct (Hpart Hlt) as (_ & _ & Ht & _). exact Ht.
Defined.

Lemma trigger_iff_witness :
  running machine_ready = true /\ sane machine_ready /\
  Forall (fun x => significant float_one x = false) [sample_nudge] /\
  wait_for_motion float_one ([sample_nudge] ++ sample_edge :: [sample_turn])
    machine_ready
  = ([sample_turn],
     triggered sample_edge (log_polls [sample_nudge] machine_ready)) /\
  run float_one Invoke_ok [sample_push] machine_ready
  = triggered sample_push machine_ready /\
  run float_one Invoke_ok [sample_nudge] machine_ready
  <> triggered sample_nudge machine_ready /\
  spec_energy sample_edge = Some (2 ^ 149) /\
  significant float_one sample_edge = spec_energy_reaches float_one sample_edge.
Proof.
  assert (Hr : running machine_ready = true) by (vm_compute; reflexivity).
  assert (Hs : sane machine_ready).
  { split; [vm_compute; split; discriminate|vm_compute; reflexivity]. }
  assert (Hq : Forall (fun x => significant float_one x = false)
                 [sample_nudge])
    by (constructor; [vm_compute; reflexivity|constructor]).
  assert (Hk : samplesRead machine_ready = numSamples)
    by (vm_compute; reflexivity).
  assert (Hedge : significant float_one sample_edge = true)
    by (vm_compute; reflexivity).
  assert (Hpush : significant float_one sample_push = true)
    by (vm_compute; reflexivity).
  assert (Hnudge : significant float_one sample_nudge = false)
    by (vm_compute; reflexivity).
  assert (Hl1 : spec_energy sample_edge = Some (2 ^ 149))
    by (vm_compute; reflexivity).
  assert (Hsum : exact (aSum sample_edge) = Some (2 ^ 149))
    by (vm_compute; reflexivity).
  assert (Hthr : exact float_one = Some (2 ^ 149))
    by (vm_compute; reflexivity).
  split; [exact Hr|]. split; [exact Hs|]. split; [exact Hq|].
  destruct (trigger_iff float_one Invoke_ok machine_ready [sample_nudge]
              sample_edge [sample_turn] Hr Hs Hq) as (Hwait & _ & Hexact).
  destruct (trigger_iff float_one Invoke_ok machine_ready []
              sample_push [] Hr Hs (Forall_nil_2 _)) as (_ & Hrun & _).
  destruct (trigger_iff float_one Invoke_ok machine_ready []
              sample_nudge [] Hr Hs (Forall_nil_2 _)) as (_ & Hrun' & _).
  split; [exact (proj2 Hwait (conj Hedge Hk))|].
  split; [exact (proj2 Hrun (conj Hpush Hk))|].
  split.
  { intros Heq. destruct (proj1 Hrun' Heq) as [Hsig _].
    rewrite Hnudge in Hsig. discriminate Hsig. }
  split; [exact Hl1|].
  exact (proj2 (Hexact _ _ Hl1 Hsum Hthr)).
Defined.

Lemma idle_is_numSamples_witness :
  running (machine_almost_full float_one Invoke_ok sample_shake) = true /\
  samplesRead (machine_almost_full float_one Invoke_ok sample_shake) + 1
  = numSamples /\
  samplesRead
    (step float_one Invoke_ok
       (machine_almost_full float_one Invoke_ok sample_shake) sample_turn)
  = numSamples /\
  samplesRead
    (run float_one Invoke_ok ([sample_rest] ++ [sample_shake])
       (step float_one Invoke_ok
          (machine_almost_full float_one Invoke_ok sample_shake) sample_turn))
  = 0.
Proof.
  set (m := machine_almost_full float_one Invoke_ok sample_shake).
  assert (Hr : running m = true) by (vm_compute; reflexivity).
  assert (Hs : sane m).
  { split; [vm_compute; split; discriminate|vm_compute; reflexivity]. }
  assert (Hk : samplesRead m + 1 = numSamples) by (vm_compute; reflexivity).
  assert (Hr' : running (step float_one Invoke_ok m sample_turn) = true)
    by (vm_compute; reflexivity).
  assert (Hq : Forall (fun x => significant float_one x = false) [sample_rest])
    by (constructor; [vm_compute; reflexivity|constructor]).
  assert (Ht : significant float_one sample_shake = true)
    by (vm_compute; reflexivity).
  destruct (idle_is_numSamples float_one Invoke_ok m sample_turn
              [sample_rest] sample_shake Hr Hs Hk Hr' Hq Ht)
    as (H1 & _ & _ & H2).
  split; [exact Hr|]. split; [exact Hk|]. split; [exact H1|exact H2].
Defined.

Lemma no_trigger_while_collecting_witness :
  length (model_input board_ok) = window_floats /\
  running (sketch accelerationThreshold_default schema_version Invoke_ok
             board_ok [sample_rest; sample_turn]) = true /\
  samplesRead (sketch accelerationThreshold_default schema_version Invoke_ok
             board_ok [sample_rest; sample_turn]) < numSamples /\
  significant accelerationThreshold_default sample_shake = true /\
  samplesRead
    (step accelerationThreshold_default Invoke_ok
       (sketch accelerationThreshold_default schema_version Invoke_ok
             board_ok [sample_rest; sample_turn]) sample_shake)
  = samplesRead (sketch accelerationThreshold_default schema_version Invoke_ok
             board_ok [sample_rest; sample_turn]) + 1.
Proof.
  assert (H : length (model_input board_ok) = window_floats)
    by (vm_compute; reflexivity).
  assert (Hr : running (sketch accelerationThreshold_default schema_version Invoke_ok
             board_ok [sample_rest; sample_turn]) = true)
    by (vm_compute; reflexivity).
  assert (Hlt : samplesRead (sketch accelerationThreshold_default schema_version Invoke_ok
             board_ok [sample_rest; sample_turn])
                < numSamples) by (vm_compute; reflexivity).
  split; [exact H|]. split; [exact Hr|]. split; [exact Hlt|].
  split; [vm_compute; reflexivity|].
  destruct (no_trigger_while_collecting accelerationThreshold_default
              schema_version Invoke_ok board_ok [sample_rest; sample_turn] H)
    as [Hc _].
  destruct (Hc Hr Hlt sample_shake []) as (_ & Hstep & _). exact Hstep.
Defined.

Lemma invoke_failure_halts_witness :
  running (machine_almost_full accelerationThreshold_default Invoke_error
             sample_rest) = true /\
  status
    (step accelerationThreshold_default Invoke_error
       (machine_almost_full accelerationThreshold_default Invoke_error
          sample_rest) sample_turn)
  = Halted /\
  forall ss,
    run accelerationThreshold_default Invoke_error ss
      (step accelerationThreshold_default Invoke_error
         (machine_almost_full accelerationThreshold_default Invoke_error
            sample_rest) sample_turn)
    = step accelerationThreshold_default Invoke_error
        (machine_almost_full accelerationThreshold_default Invoke_error
           sample_rest) sample_turn.
Proof.
  set (m := machine_almost_full accelerationThreshold_default Invoke_error
              sample_rest).
  assert (Hr : running m = true) by (vm_compute; reflexivity).
  assert (Hk : samplesRead m + 1 = numSamples) by (vm_compute; reflexivity).
  assert (H0 : 0 <= samplesRead m) by (vm_compute; discriminate).
  assert (Hw : write_row (tflInputTensor m) (samplesRead m) (gyro sample_turn)
               = Some (rows (repeat sample_turn 200)))
    by (vm_compute; reflexivity).
  assert (Hf : status_ok
                 (invokeStatus
                    (Invoke_error (trace m ++ [EvGetEvent sample_turn])
                       (rows (repeat sample_turn 200)))) = false)
    by reflexivity.
  destruct (invoke_failure_halts accelerationThreshold_default Invoke_error
              m sample_turn (rows (repeat sample_turn 200)) Hr Hk H0 Hw Hf)
    as (_ & Hh & Hrun).
  split; [exact Hr|]. split; [exact Hh|exact Hrun].
Defined.

Lemma startup_failure_halts_witness :
  mpu_begin board_no_imu = false /\
  status (sketch accelerationThreshold_default schema_version Invoke_ok
             board_no_imu episode_turn) = Halted /\
  trace (sketch accelerationThreshold_default schema_version Invoke_ok
             board_no_imu episode_turn)
  = [EvSerial (Serial_println "Failed to initialize IMU!")].
Proof.
  destruct (startup_failure_halts accelerationThreshold_default
              schema_version Invoke_ok board_no_imu episode_turn
              (or_introl eq_refl)) as (_ & Hh & Ht & _).
  split; [reflexivity|]. split; [exact Hh|exact (Ht eq_refl)].
Defined.

Lemma report_six_lines_witness :
  running machine_ready = true /\
  status (run_inference Invoke_ok machine_ready) = Running /\
  Z.of_nat (length GAITS) = NUM_GAITS.
Proof.
  assert (Hr : running machine_ready = true) by (vm_compute; reflexivity).
  assert (Hok : snd (call_Invoke Invoke_ok machine_ready) = kTfLiteOk)
    by reflexivity.
  assert (Hout : tflOutputTensor (fst (call_Invoke Invoke_ok machine_ready))
                 = float_zero :: float_zero :: float_zero :: float_zero ::
                   float_zero :: float_zero :: [])
    by (vm_compute; reflexivity).
  destruct (report_six_lines Invoke_ok machine_ready _ _ _ _ _ _ _ Hr Hok Hout)
    as (_ & Hs & Hg & _).
  split; [exact Hr|]. split; [exact Hs|exact Hg].
Defined.

Lemma default_threshold_triggers_witness :
  is_nan (vx (acceleration sample_shake)) = false /\
  fge (aSum sample_shake) accelerationThreshold_default = true /\
  samplesRead
    (step accelerationThreshold_default Invoke_ok machine_ready sample_shake)
  = 0.
Proof.
  destruct (default_threshold_triggers Invoke_ok machine_ready sample_shake
              eq_refl eq_refl eq_refl) as (_ & Hs & Hstep).
  assert (Hr : running machine_ready = true) by (vm_compute; reflexivity).
  assert (Hk : samplesRead machine_ready = numSamples)
    by (vm_compute; reflexivity).
  destruct (Hstep Hr Hk) as [_ H0].
  split; [reflexivity|]. split; [exact Hs|exact H0].
Defined.

Lemma input_writes_in_bounds_witness :
  0 <= samplesRead machine_collecting <= numSamples /\
  samplesRead
    (step accelerationThreshold_default Invoke_ok machine_collecting
       sample_turn)
  = samplesRead machine_collecting + 1.
Proof.
  assert (H : 0 <= samplesRead machine_collecting <= numSamples)
    by (vm_compute; split; discriminate).
  split; [exact H|].
  destruct (input_writes_in_bounds accelerationThreshold_default Invoke_ok
              machine_collecting sample_turn H) as (_ & _ & _ & _ & Hw).
  assert (Hr : running machine_collecting = true) by (vm_compute; reflexivity).
  assert (Hlt : samplesRead machine_collecting < numSamples)
    by (vm_compute; reflexivity).
  destruct (Hw Hr Hlt) as (_ & Hl).
  assert (Hlen : length (tflInputTensor machine_collecting) = window_floats)
    by (vm_compute; reflexivity).
  destruct (Hl Hlen) as [_ Hstep]. exact Hstep.
Defined.

(** * Where the sketch differs from what is said of it *)

(** C3. At the threshold 1.0, the reading of acceleration
    [{0.5, -0.49999997, 0}] has an L1 norm of 0.99999997, below the
    threshold. The sketch computes [0.5f + 0.49999997f = 1.0f]: the sum
    lies halfway between two binary32 numbers and is rounded to the even
    one. So [aSum >= accelerationThreshold] holds and the trigger fires. *)
Lemma trigger_fires_below_l1_threshold :
  spec_energy sample_round = Some (2 ^ 149 - 2 ^ 124) /\
  exact float_one = Some (2 ^ 149) /\
  spec_energy_reaches float_one sample_round = false /\
  aSum sample_round = float_one /\
  significant float_one sample_round = true /\
  wait_for_motion float_one [sample_round] machine_ready
  = ([], triggered sample_round machine_ready) /\
  samplesRead
    (sketch float_one schema_version Invoke_ok board_ok [sample_round]) = 0.
Proof. repeat split; vm_compute; reflexivity. Qed.

(** C4. After a completed inference (the call is in the trace, the report
    ends the trace, the sketch is running), [samplesRead] is 200, not 0. *)
Lemma samplesRead_after_inference_not_zero :
  status (sketch_ok board_ok episode_turn) = Running /\
  existsb is_invoke (trace (sketch_ok board_ok episode_turn)) = true /\
  last (trace (sketch_ok board_ok episode_turn))
  = Some (EvSerial Serial_println_empty) /\
  samplesRead (sketch_ok board_ok episode_turn) = 200 /\
  samplesRead (sketch_ok board_ok episode_turn) <> 0.
Proof. repeat split; try (vm_compute; reflexivity). vm_compute. discriminate. Qed.

(** C8. A model with five classes, one fewer than the entries of [GAITS],
    goes through [setup] without an error line and without halting; the
    first report then reads past the end of the output tensor. *)
Lemma label_mismatch_not_caught_at_startup :
  length (model_output board_five_classes) = 5%nat /\
  length GAITS = 6%nat /\
  status (setup schema_version board_five_classes) = Running /\
  trace (setup schema_version board_five_classes)
  = trace (setup schema_version board_ok) /\
  status (sketch_ok board_five_classes episode_turn) = Undefined.
Proof. repeat split; vm_compute; reflexivity. Qed.

(** C9. A reading whose x acceleration is a NaN does not reach the
    threshold 0: the sketch polls it between two episodes and starts no
    episode. *)
Lemma nan_reading_does_not_trigger :
  running machine_ready = true /\
  samplesRead machine_ready = numSamples /\
  fge (aSum sample_nan) accelerationThreshold_default = false /\
  samplesRead
    (step accelerationThreshold_default Invoke_ok machine_ready sample_nan)
  = numSamples /\
  step accelerationThreshold_default Invoke_ok machine_ready sample_nan
  <> triggered sample_nan machine_ready.
Proof.
  repeat split; try (vm_compute; reflexivity). vm_compute. discriminate.
Qed.

(** * More of the sketch *)

(** ** Polls and calls in a trace *)

Lemma polls_of_app tr1 tr2 : polls_of (tr1 ++ tr2) = polls_of tr1 ++ polls_of tr2.
Proof. apply omap_app. Qed.


Lemma polls_of_serial ops : polls_of (map EvSerial ops) = [].
Proof. by induction ops. Qed.

Lemma invokes_of_app tr1 tr2 :
  invokes_of (tr1 ++ tr2) = invokes_of tr1 ++ invokes_of tr2.
Proof. apply omap_app. Qed.

Lemma invokes_of_polls ss : invokes_of (map EvGetEvent ss) = [].
Proof. by induction ss. Qed.

Lemma invokes_of_serial ops : invokes_of (map EvSerial ops) = [].
Proof. by induction ops. Qed.

Section MoreProperties.

Variable accelerationThreshold : float.
Variable TFLITE_SCHEMA_VERSION : Z.
Variable Invoke : list Event -> list float -> InvokeResult.

Abbreviation wait_body := (wait_body accelerationThreshold).
Abbreviation wait_for_motion := (wait_for_motion accelerationThreshold).
Abbreviation significant := (significant accelerationThreshold).
Abbreviation call_Invoke := (call_Invoke Invoke).
Abbreviation run_inference := (run_inference Invoke).
Abbreviation collect_body := (collect_body Invoke).
Abbreviation collect := (collect Invoke).
Abbreviation loop := (loop accelerationThreshold Invoke).
Abbreviation main := (main accelerationThreshold Invoke).
Abbreviation run := (run accelerationThreshold Invoke).
Abbreviation step := (step accelerationThreshold Invoke).
Abbreviation setup := (setup TFLITE_SCHEMA_VERSION).
Abbreviation sketch := (sketch accelerationThreshold TFLITE_SCHEMA_VERSION Invoke).
Abbreviation episode_ok := (episode_ok accelerationThreshold).
Abbreviation episode_answer := (episode_answer Invoke).

(** ** Readings below the threshold *)

Lemma run_log_polls quiet m :
  running m = true -> samplesRead m = numSamples ->
  Forall (fun x => significant x = false) quiet ->
  run quiet m = log_polls quiet m.
Proof.
  intros Hr Hk Hq. revert m Hr Hk.
  induction Hq as [|x quiet Hx _ IH]; intros m Hr Hk.
  - by rewrite run_nil, log_polls_nil.
  - rewrite run_cons, step_idle by done. unfold wait_body. rewrite Hx.
    cbn [fst]. rewrite log_polls_cons. by apply IH.
Qed.

(** X1. While no episode is active, readings that do not reach the
    threshold are polled and change nothing: the count, both tensors and
    the status stay as they are, and the trace grows by the polls only, so
    the classifier is not called and nothing is printed; the trigger loop
    of [loop] takes them all and waits for more. *)
Theorem quiet_readings_change_nothing quiet m :
  running m = true -> samplesRead m = numSamples ->
  Forall (fun x => significant x = false) quiet ->
  run quiet m = log_polls quiet m /\
  loop quiet m = ([], log_polls quiet m) /\
  invokes_of (trace (run quiet m)) = invokes_of (trace m).
Proof.
  intros Hr Hk Hq.
  split; [by apply run_log_polls|]. split.
  - unfold loop.
    rewrite <- (app_nil_r quiet) at 1.
    rewrite wait_for_motion_quiet by done. done.
  - rewrite run_log_polls by done. cbn [log_polls trace].
    by rewrite invokes_of_app, invokes_of_polls, app_nil_r.
Qed.

(** ** The report and the length of the output tensor *)

Lemma report_outcome m :
  running m = true ->
  match GAITS !! length (tflOutputTensor m) with
  | None =>
      status (report m) = Running /\
      trace (report m)
      = trace m
        ++ map EvSerial
             (score_lines (tflOutputTensor m) ++ [Serial_println_empty])
  | Some label =>
      status (report m) = Undefined /\
      trace (report m)
      = trace m
        ++ map EvSerial
             (score_lines (tflOutputTensor m)
              ++ [Serial_print label; Serial_print ": "])
  end.
Proof.
  destruct m as [k t o tr st]. unfold running.
  cbn [status tflOutputTensor trace]. intros Hst.
  destruct st; try done.
  destruct o as [|s0 [|s1 [|s2 [|s3 [|s4 [|s5 rest]]]]]].
  7: { match goal with
       | |- context [report ?x] =>
           destruct (report_six x s0 s1 s2 s3 s4 s5 rest eq_refl eq_refl)
             as (Htr & Hs & _)
       end.
       cbn [length lookup list_lookup GAITS]. split; [exact Hs|].
       rewrite Htr. reflexivity. }
  all: unfold report;
    replace (seqZ 0 NUM_GAITS) with [0; 1; 2; 3; 4; 5] by reflexivity;
    (split; [reflexivity|]);
    cbv -[app]; rewrite <- ?app_assoc; reflexivity.
Qed.

Lemma report_status m :
  running m = true ->
  status (report m)
  = if (6 <=? length (tflOutputTensor m))%nat then Running else Undefined.
Proof.
  intros Hr. pose proof (report_outcome m Hr) as H.
  destruct (tflOutputTensor m) as [|s0 [|s1 [|s2 [|s3 [|s4 [|s5 rest]]]]]];
    apply H.
Qed.

Lemma call_Invoke_output_length m :
  length (tflOutputTensor (fst (call_Invoke m))) = length (tflOutputTensor m).
Proof. cbn. apply length_overwrite. Qed.

(** X4. The report reads [NUM_GAITS = 6] scores without looking at the
    length of the output tensor. After a successful [Invoke] that leaves at
    least six scores it prints the six score lines and the empty line.
    After one that leaves [n < 6] scores it prints the [n] score lines
    there are, then the label of class [n] and the separator, and then
    reads [data.f[n]], which is outside the tensor: the trace begins with
    these lines, and the status [Undefined] marks the read. What the read
    yields and what is printed after it is not said. *)
Theorem report_needs_six_scores m :
  running m = true -> snd (call_Invoke m) = kTfLiteOk ->
  (NUM_GAITS <= Z.of_nat (length (tflOutputTensor (fst (call_Invoke m)))) ->
   status (run_inference m) = Running /\
   trace (run_inference m)
   = trace (fst (call_Invoke m))
     ++ map EvSerial
          (score_lines (tflOutputTensor (fst (call_Invoke m)))
           ++ [Serial_println_empty])) /\
  (forall label,
     GAITS !! length (tflOutputTensor (fst (call_Invoke m))) = Some label ->
     load (tflOutputTensor (fst (call_Invoke m)))
          (Z.of_nat (length (tflOutputTensor (fst (call_Invoke m))))) = None /\
     status (run_inference m) = Undefined /\
     exists tail,
       trace (run_inference m)
       = trace (fst (call_Invoke m))
         ++ map EvSerial
              (score_lines (tflOutputTensor (fst (call_Invoke m)))
               ++ [Serial_print label; Serial_print ": "])
         ++ tail) /\
  length (tflOutputTensor (fst (call_Invoke m)))
  = length (tflOutputTensor m).
Proof.
  intros Hr Hok.
  assert (Hr' : running (fst (call_Invoke m)) = true) by exact Hr.
  pose proof (report_outcome _ Hr') as Hrep.
  rewrite run_inference_call, Hok. cbn [status_ok negb].
  split; [|split; [|apply call_Invoke_output_length]].
  - intros Hlen.
    destruct (GAITS !! length (tflOutputTensor (fst (call_Invoke m))))
      as [label|] eqn:Hl; [|exact Hrep].
    apply lookup_lt_Some in Hl. change (length GAITS) with 6%nat in Hl.
    unfold NUM_GAITS in Hlen. lia.
  - intros label Hl. rewrite Hl in Hrep. destruct Hrep as [Hst Htr].
    split; [apply load_out_of_bounds; lia|]. split; [exact Hst|].
    exists []. by rewrite app_nil_r.
Qed.

(** ** One call of [loop] *)

Lemma collect_app_partial w rest m :
  running m = true -> 0 <= samplesRead m ->
  samplesRead m + Z.of_nat (length w) < numSamples ->
  length (tflInputTensor m) = window_floats ->
  collect (w ++ rest) m = collect rest (run w m).
Proof.
  revert m. induction w as [|s w IH]; intros m Hr Hk Hlt Hlen.
  - by rewrite run_nil.
  - cbn [length] in Hlt. cbn [app collect]. rewrite Hr.
    destruct (Z.ltb_spec (samplesRead m) numSamples); [|lia].
    cbn [andb]. rewrite run_cons, step_collecting by (done || lia).
    assert (Hbody : collect_body s m = append_row s m).
    { rewrite collect_body_append_row by (done || lia).
      destruct (Z.eqb_spec (samplesRead m + 1) numSamples); [lia|done]. }
    rewrite Hbody. apply IH.
    + done.
    + cbn [append_row samplesRead]. lia.
    + cbn [append_row samplesRead]. lia.
    + apply append_row_input_length; (done || lia).
Qed.

Lemma collect_done rest m :
  samplesRead m = numSamples -> collect rest m = (rest, m).
Proof.
  intros Hk. destruct rest as [|s rest]; [done|]. cbn [collect].
  destruct (Z.ltb_spec (samplesRead m) numSamples); [lia|].
  by rewrite andb_false_r.
Qed.

Lemma collect_app_window w rest m :
  running m = true -> samplesRead m = 0 ->
  Z.of_nat (length w) = numSamples ->
  length (tflInputTensor m) = window_floats ->
  collect (w ++ rest) m = (rest, run w m).
Proof.
  intros Hr Hk Hw Hlen.
  destruct w as [|s w _] using rev_ind; [done|].
  rewrite length_app in Hw. simpl in Hw.
  rewrite <- app_assoc. cbn [app].
  rewrite collect_app_partial by (done || lia).
  rewrite run_app, run_one.
  pose proof (run_collecting accelerationThreshold Invoke w m) as Hrun.
  rewrite Hrun by (done || lia).
  set (m1 := append_rows w m).
  assert (Hr1 : running m1 = true) by done.
  assert (Hk1 : samplesRead m1 + 1 = numSamples)
    by (cbn [m1 append_rows samplesRead]; lia).
  cbn [collect]. rewrite Hr1.
  destruct (Z.ltb_spec (samplesRead m1) numSamples); [|lia].
  cbn [andb]. rewrite step_collecting by done.
  apply collect_done.
  destruct (collect_body_samplesRead Invoke s m1) as [Hs|Hs]; [lia| |lia].
  assert (Hlen1 : length (tflInputTensor m1) = window_floats).
  { cbn [m1 append_rows tflInputTensor].
    rewrite !length_app, length_take, length_rows, length_drop, Hlen.
    unfold window_floats, numSamples in *. lia. }
  rewrite collect_body_append_row in Hs by (done || lia).
  destruct (Z.eqb_spec (samplesRead m1 + 1) numSamples); [|lia].
  rewrite run_inference_samplesRead in Hs. cbn [append_row samplesRead] in Hs.
  lia.
Qed.

(** What the readings of one episode do to a machine between two
    episodes. *)
Lemma episode_run e m :
  ready m -> episode_ok e ->
  run (episode_readings e) m
  = run_inference
      (append_rows (ep_window e)
         (triggered (ep_trigger e) (log_polls (ep_quiet e) m))) /\
  tflInputTensor
    (append_rows (ep_window e)
       (triggered (ep_trigger e) (log_polls (ep_quiet e) m)))
  = rows (ep_window e).
Proof.
  intros (Hst & Hk & Hlen) (Hq & Ht & Hw).
  assert (Hr : running m = true) by (unfold running; by rewrite Hst).
  unfold episode_readings. rewrite run_app.
  rewrite (run_log_polls (ep_quiet e) m) by done.
  rewrite run_cons, step_idle by done.
  unfold wait_body. rewrite Ht. cbn [fst].
  change (set_samplesRead 0
            (log (EvGetEvent (ep_trigger e)) (log_polls (ep_quiet e) m)))
    with (triggered (ep_trigger e) (log_polls (ep_quiet e) m)).
  by apply run_window.
Qed.

Lemma run_inference_invokes m :
  invokes_of (trace (run_inference m))
  = invokes_of (trace m) ++ [tflInputTensor m].
Proof.
  destruct (run_inference_trace Invoke m) as [ops ->].
  change (EvInvoke (tflInputTensor m) (call_Invoke m).2 :: map EvSerial ops)
    with ([EvInvoke (tflInputTensor m) (call_Invoke m).2] ++ map EvSerial ops).
  rewrite !invokes_of_app, invokes_of_serial. by rewrite app_nil_r.
Qed.

Lemma episode_invokes e m :
  ready m -> episode_ok e ->
  invokes_of (trace (run (episode_readings e) m))
  = invokes_of (trace m) ++ [rows (ep_window e)].
Proof.
  intros Hm He. destruct (episode_run e m Hm He) as [-> Hrows].
  rewrite run_inference_invokes, Hrows. f_equal.
  cbn [append_rows triggered set_samplesRead log log_polls trace].
  rewrite !invokes_of_app, !invokes_of_polls. cbn. by rewrite !app_nil_r.
Qed.

Lemma episode_call e m :
  ready m -> episode_ok e ->
  exists m1,
    run (episode_readings e) m = run_inference m1 /\
    running m1 = true /\
    samplesRead m1 = numSamples /\
    length (tflInputTensor m1) = window_floats /\
    tflOutputTensor m1 = tflOutputTensor m /\
    snd (call_Invoke m1) = episode_answer e m.
Proof.
  intros Hm He. pose proof Hm as (Hst & Hk & Hlen).
  pose proof He as (Hq & Ht & Hw).
  destruct (episode_run e m Hm He) as [Hrun Hrows].
  eexists. split; [exact Hrun|].
  split; [unfold running; cbn; by rewrite Hst|].
  split; [cbn [append_rows triggered set_samplesRead samplesRead]; lia|].
  split.
  { rewrite Hrows, length_rows. unfold window_floats, numSamples in *. lia. }
  split; [done|].
  unfold episode_answer.
  change (snd (call_Invoke ?x))
    with (invokeStatus (Invoke (trace x) (tflInputTensor x))).
  rewrite Hrows. f_equal. f_equal.
  cbn [append_rows triggered set_samplesRead log log_polls trace].
  unfold episode_readings. rewrite map_app. cbn [map].
  by rewrite <- !app_assoc.
Qed.

Lemma episode_ok_ready e m :
  ready m -> episode_ok e ->
  NUM_GAITS <= Z.of_nat (length (tflOutputTensor m)) ->
  episode_answer e m = kTfLiteOk ->
  ready (run (episode_readings e) m) /\
  length (tflOutputTensor (run (episode_readings e) m))
  = length (tflOutputTensor m).
Proof.
  intros Hm He Hout Hok.
  destruct (episode_call e m Hm He)
    as (m1 & -> & Hr1 & Hk1 & Hlen1 & Hout1 & Hcall).
  split; [split; [|split]|].
  - rewrite run_inference_call, Hcall, Hok. cbn [status_ok negb].
    rewrite report_status by exact Hr1.
    rewrite call_Invoke_output_length, Hout1.
    unfold NUM_GAITS in Hout.
    by destruct (Nat.leb_spec 6 (length (tflOutputTensor m))); [|lia].
  - by rewrite run_inference_samplesRead.
  - by rewrite run_inference_input_length.
  - by rewrite run_inference_output_length, Hout1.
Qed.

Lemma episode_failed_halted e m :
  ready m -> episode_ok e ->
  episode_answer e m <> kTfLiteOk ->
  status (run (episode_readings e) m) = Halted /\
  last (trace (run (episode_readings e) m))
  = Some (EvSerial (Serial_println "Invoke failed!")).
Proof.
  intros Hm He Hfail.
  destruct (episode_call e m Hm He)
    as (m1 & -> & Hr1 & Hk1 & Hlen1 & Hout1 & Hcall).
  rewrite run_inference_call, Hcall.
  destruct (episode_answer e m); [done| | |];
    (split; [done|]); cbn [negb status_ok halt set_status Serial_do log trace];
    apply last_snoc.
Qed.

(** X13. One call of [loop] is one episode. From a machine between two
    episodes, with an output tensor of at least six floats, whatever
    follows in the sensor's stream: the call takes exactly the readings of
    one episode (those below the threshold, the one that fires the
    trigger, [numSamples] for the window), calls [Invoke] exactly once,
    with the rows of the window, and leaves [samplesRead] at [numSamples].
    If [Invoke] answers [kTfLiteOk], the call returns: the sketch is
    running, between two episodes again, and the readings that follow are
    left for the next call. If [Invoke] answers anything else, the call
    prints "Invoke failed!" and does not return: the sketch is halted in
    [while (1);], and the readings that follow are never taken. *)
Theorem one_loop_call_one_episode e rest m :
  ready m -> episode_ok e ->
  NUM_GAITS <= Z.of_nat (length (tflOutputTensor m)) ->
  loop (episode_readings e ++ rest) m = (rest, run (episode_readings e) m) /\
  invokes_of (trace (run (episode_readings e) m))
  = invokes_of (trace m) ++ [rows (ep_window e)] /\
  samplesRead (run (episode_readings e) m) = numSamples /\
  (episode_answer e m = kTfLiteOk ->
   status (run (episode_readings e) m) = Running /\
   ready (run (episode_readings e) m)) /\
  (episode_answer e m <> kTfLiteOk ->
   status (run (episode_readings e) m) = Halted /\
   last (trace (run (episode_readings e) m))
   = Some (EvSerial (Serial_println "Invoke failed!")) /\
   run rest (run (episode_readings e) m) = run (episode_readings e) m).
Proof.
  intros Hm He Hout. pose proof Hm as (Hst & Hk & Hlen).
  pose proof He as (Hq & Ht & Hw).
  assert (Hr : running m = true) by (unfold running; by rewrite Hst).
  split; [|split; [by apply episode_invokes|split; [|split]]].
  - unfold loop, episode_readings. rewrite <- app_assoc. cbn [app].
    rewrite wait_for_motion_quiet by done.
    rewrite wait_for_motion_trigger by done.
    rewrite collect_app_window by done.
    rewrite run_app, (run_log_polls (ep_quiet e) m) by done.
    rewrite run_cons, step_idle by done.
    unfold wait_body. by rewrite Ht.
  - destruct (episode_run e m Hm He) as [-> _].
    rewrite run_inference_samplesRead.
    cbn [append_rows triggered set_samplesRead samplesRead]. lia.
  - intros Hok.
    destruct (episode_ok_ready e m Hm He Hout Hok) as [Hready _].
    split; [apply Hready|exact Hready].
  - intros Hfail.
    destruct (episode_failed_halted e m Hm He Hfail) as [Hh Hl].
    split; [exact Hh|]. split; [exact Hl|]. by apply run_halted.
Qed.

(** ** Episode after episode *)

Lemma episode_ready e m :
  ready m -> episode_ok e ->
  (forall tr inp, invokeStatus (Invoke tr inp) = kTfLiteOk) ->
  NUM_GAITS <= Z.of_nat (length (tflOutputTensor m)) ->
  ready (run (episode_readings e) m) /\
  length (tflOutputTensor (run (episode_readings e) m))
  = length (tflOutputTensor m).
Proof.
  intros Hm He Hok Hout. apply episode_ok_ready; try done. apply Hok.
Qed.

(** X3. Episode after episode, on an interpreter that always succeeds and
    an output tensor of at least six floats: after any number of episodes
    the sketch is again between two episodes and running, and the windows
    it has given to [Invoke] are exactly the rows of the windows of the
    episodes, one call per episode, in the order of the episodes. Nothing
    of an earlier window, and nothing the interpreter left in the input
    tensor, shows in a later one. *)
Theorem episodes_in_order es m :
  ready m ->
  NUM_GAITS <= Z.of_nat (length (tflOutputTensor m)) ->
  (forall tr inp, invokeStatus (Invoke tr inp) = kTfLiteOk) ->
  Forall episode_ok es ->
  ready (run (concat (map episode_readings es)) m) /\
  invokes_of (trace (run (concat (map episode_readings es)) m))
  = invokes_of (trace m) ++ map (fun e => rows (ep_window e)) es.
Proof.
  intros Hm Hout Hok Hes. revert m Hm Hout.
  induction Hes as [|e es He _ IH]; intros m Hm Hout.
  - cbn [map concat]. rewrite run_nil. cbn [map]. by rewrite app_nil_r.
  - cbn [map concat]. rewrite run_app.
    destruct (episode_ready e m Hm He Hok Hout) as [Hm' Hout'].
    destruct (IH (run (episode_readings e) m)) as [Hready Hinv];
      [done|by rewrite Hout'|].
    split; [done|].
    rewrite Hinv, episode_invokes by done. by rewrite <- app_assoc.
Qed.

(** ** From power-on to the first report *)

Lemma setup_success b :
  mpu_begin b = true -> model_version b = TFLITE_SCHEMA_VERSION ->
  status (setup b) = Running /\
  samplesRead (setup b) = numSamples /\
  tflInputTensor (setup b) = model_input b /\
  tflOutputTensor (setup b) = model_output b /\
  trace (setup b)
  = map EvSerial
      [Serial_print "Accelerometer range set to: "; Serial_println "+-2G";
       Serial_print "Gyro range set to: "; Serial_println "+- 2000 deg/s";
       Serial_print "Filter bandwidth set to: "; Serial_println "184 Hz";
       Serial_println_empty].
Proof.
  intros Hb Hv. unfold setup. rewrite Hb, Hv, Z.eqb_refl. done.
Qed.

(** X2. From power-on to the first report. On a board whose IMU starts and
    whose model has the expected schema version and an input tensor of 600
    floats, the readings of one episode make the sketch ask the classifier
    about exactly the rows of the window; if that call succeeds and leaves
    at least six scores, the trace is the seven lines of [setup], the poll
    of every reading in order, the call, and the report of the six scores
    followed by an empty line, and nothing else; the sketch is then between
    two episodes again, with the scores in the output tensor. *)
Theorem first_episode_trace b e s0 s1 s2 s3 s4 s5 more :
  mpu_begin b = true -> model_version b = TFLITE_SCHEMA_VERSION ->
  length (model_input b) = window_floats ->
  episode_ok e ->
  invokeStatus
    (Invoke (trace (setup b) ++ map EvGetEvent (episode_readings e))
       (rows (ep_window e))) = kTfLiteOk ->
  overwrite
    (output_after
       (Invoke (trace (setup b) ++ map EvGetEvent (episode_readings e))
          (rows (ep_window e))))
    (model_output b)
  = s0 :: s1 :: s2 :: s3 :: s4 :: s5 :: more ->
  trace (sketch b (episode_readings e))
  = map EvSerial
      [Serial_print "Accelerometer range set to: "; Serial_println "+-2G";
       Serial_print "Gyro range set to: "; Serial_println "+- 2000 deg/s";
       Serial_print "Filter bandwidth set to: "; Serial_println "184 Hz";
       Serial_println_empty]
    ++ map EvGetEvent (episode_readings e)
    ++ EvInvoke (rows (ep_window e)) kTfLiteOk
       :: report_events s0 s1 s2 s3 s4 s5 /\
  status (sketch b (episode_readings e)) = Running /\
  samplesRead (sketch b (episode_readings e)) = numSamples /\
  tflOutputTensor (sketch b (episode_readings e))
  = s0 :: s1 :: s2 :: s3 :: s4 :: s5 :: more.
Proof.
  intros Hb Hv Hlen He Hok Hscores.
  destruct (setup_success b Hb Hv) as (Hst & Hk & Hin & Hout & Htr).
  assert (Hm : ready (setup b)) by (repeat split; [done|done|by rewrite Hin]).
  unfold sketch. destruct (episode_run e (setup b) Hm He) as [-> Hrows].
  set (m1 := append_rows (ep_window e)
               (triggered (ep_trigger e) (log_polls (ep_quiet e) (setup b))))
    in *.
  assert (Htr1 : trace m1
                 = trace (setup b) ++ map EvGetEvent (episode_readings e)).
  { cbn [m1 append_rows triggered set_samplesRead log log_polls trace].
    unfold episode_readings. rewrite map_app. cbn [map].
    by rewrite <- !app_assoc. }
  assert (Hcall2 : (call_Invoke m1).2 = kTfLiteOk).
  { change ((call_Invoke m1).2)
      with (invokeStatus (Invoke (trace m1) (tflInputTensor m1))).
    by rewrite Htr1, Hrows. }
  assert (Hcall_out : tflOutputTensor (call_Invoke m1).1
                      = s0 :: s1 :: s2 :: s3 :: s4 :: s5 :: more).
  { change (tflOutputTensor (call_Invoke m1).1)
      with (overwrite (output_after (Invoke (trace m1) (tflInputTensor m1)))
              (tflOutputTensor (setup b))).
    by rewrite Htr1, Hrows, Hout. }
  assert (Hr1 : running (call_Invoke m1).1 = true)
    by (unfold running; cbn; by rewrite Hst).
  rewrite run_inference_call, Hcall2. cbn [status_ok negb].
  destruct (report_six _ _ _ _ _ _ _ _ Hr1 Hcall_out) as (Ht & Hs & Hc).
  pose proof (serial_only_report (call_Invoke m1).1) as (_ & _ & Ho & _).
  split; [|split; [|split]].
  - rewrite Ht.
    change (trace (call_Invoke m1).1)
      with (trace m1 ++ [EvInvoke (tflInputTensor m1) (call_Invoke m1).2]).
    rewrite Hcall2, Htr1, Hrows, Htr. unfold report_events.
    by rewrite <- !app_assoc.
  - rewrite Hs. cbn. exact Hst.
  - rewrite Hc. destruct He as (_ & _ & Hw).
    cbn [call_Invoke fst m1 append_rows triggered set_samplesRead
         set_tflInputTensor set_tflOutputTensor log samplesRead]. lia.
  - by rewrite Ho.
Qed.

(** ** The stores of a row and the length of the input tensor *)

Lemma store_is_Some t i v :
  is_Some (store t i v) <-> 0 <= i < Z.of_nat (length t).
Proof.
  unfold store.
  destruct (Z.leb_spec 0 i) as [H0|H0],
           (Z.ltb_spec i (Z.of_nat (length t))) as [H1|H1]; simpl;
    (split; [intros [x Hx]; (lia || discriminate)|intros Hb; (lia || eauto)]).
Qed.

Lemma store_lookup_ne t i v t' (j : nat) :
  store t i v = Some t' -> Z.of_nat j <> i -> t' !! j = t !! j.
Proof.
  unfold store. destruct (Z.leb_spec 0 i) as [H0|H0]; [|done].
  destruct (_ <? _); [|done]. intros [= <-] Hne.
  apply list_lookup_insert_ne. lia.
Qed.

Lemma write_row_Some t k g t3 :
  0 <= k < numSamples -> write_row t k g = Some t3 ->
  exists t1 t2,
    store t (3 * k + 0) (vx g) = Some t1 /\
    store t1 (3 * k + 1) (vy g) = Some t2 /\
    store t2 (3 * k + 2) (vz g) = Some t3.
Proof.
  intros Hk. unfold write_row. rewrite !row_index by lia.
  destruct (store t (3 * k + 0) (vx g)) as [t1|] eqn:H1; simpl; [|done].
  destruct (store t1 (3 * k + 1) (vy g)) as [t2|] eqn:H2; simpl; [|done].
  intros H3. by exists t1, t2.
Qed.

Lemma write_row_fits t k g t3 :
  0 <= k < numSamples -> write_row t k g = Some t3 ->
  3 * k + 3 <= Z.of_nat (length t).
Proof.
  intros Hk Hw.
  destruct (write_row_Some t k g t3 Hk Hw) as (t1 & t2 & H1 & H2 & H3).
  pose proof (proj1 (store_is_Some t2 _ _) (ex_intro _ t3 H3)) as Hb.
  apply store_length in H1, H2. lia.
Qed.

(** X5. The three stores of a row, for a count [k] in its range: they
    succeed exactly when the input tensor has at least [3k + 3] floats (the
    sketch itself never looks at the length of the tensor); and when they
    succeed the tensor keeps its length and changes at the indices [3k],
    [3k+1], [3k+2] only. *)
Theorem row_store_bounds t k g :
  0 <= k < numSamples ->
  (is_Some (write_row t k g) <-> 3 * k + 3 <= Z.of_nat (length t)) /\
  (forall t', write_row t k g = Some t' ->
     length t' = length t /\
     forall j : nat,
       Z.of_nat j < 3 * k \/ 3 * k + 3 <= Z.of_nat j -> t' !! j = t !! j).
Proof.
  intros Hk. split; [split|].
  - intros [t3 H3]. by eapply write_row_fits.
  - intros Hlen. rewrite write_row_in_bounds by lia. by eexists.
  - intros t' Hw. split; [by eapply write_row_length|].
    intros j Hj.
    destruct (write_row_Some t k g t' Hk Hw) as (t1 & t2 & H1 & H2 & H3).
    rewrite (store_lookup_ne _ _ _ _ j H3) by lia.
    rewrite (store_lookup_ne _ _ _ _ j H2) by lia.
    apply (store_lookup_ne _ _ _ _ j H1). lia.
Qed.






(** ** Every reading is polled once *)

Lemma step_polls m s :
  polling m = true ->
  polls_of (trace (step m s)) = polls_of (trace m) ++ [s].
Proof.
  unfold polling. intros [Hr Hle]%andb_true_iff. apply Z.leb_le in Hle.
  destruct (Z.eq_dec (samplesRead m) numSamples) as [Hidle|Hne].
  - rewrite step_idle by done. unfold wait_body.
    destruct (significant s); cbn [fst set_samplesRead log trace];
      by rewrite polls_of_app.
  - rewrite step_collecting by (done || lia). unfold collect_body.
    destruct (write_row _ _ _) as [t'|];
      [|cbn [undefined set_status set_tflInputTensor log trace];
        by rewrite polls_of_app].
    destruct (_ =? _);
      [|cbn [set_samplesRead set_tflInputTensor log trace];
        by rewrite polls_of_app].
    destruct (run_inference_trace Invoke
                (set_samplesRead
                   (int_wrap
                      (samplesRead
                         (set_tflInputTensor t' (log (EvGetEvent s) m)) + 1))
                   (set_tflInputTensor t' (log (EvGetEvent s) m))))
      as [ops ->].
    cbn [set_samplesRead set_tflInputTensor log trace].
    match goal with
    | |- context [?tr ++ EvInvoke ?i ?st :: map EvSerial ops] =>
        change (tr ++ EvInvoke i st :: map EvSerial ops)
          with (tr ++ [EvInvoke i st] ++ map EvSerial ops)
    end.
    rewrite !polls_of_app, polls_of_serial. cbn. by rewrite !app_nil_r.
Qed.

(** X7. Every reading is polled once. Whatever the machine (with its count
    in range), the readings the sketch has polled when a list of readings
    has been offered are a prefix of that list, in order, each logged
    once, after those polled before; and as long as the sketch is running
    it has polled them all: none is skipped, none is polled twice. *)
Theorem every_reading_polled_once ss m :
  0 <= samplesRead m <= numSamples ->
  exists k : nat,
    (k <= length ss)%nat /\
    polls_of (trace (run ss m)) = polls_of (trace m) ++ take k ss /\
    (running (run ss m) = true -> k = length ss).
Proof.
  revert m. induction ss as [|s ss IH]; intros m Hk.
  - exists 0%nat. rewrite run_nil. cbn. by rewrite app_nil_r.
  - destruct (polling m) eqn:Hp.
    + destruct (IH (step m s)) as (k & Hle & Hpolls & Hall);
        [by apply step_samplesRead_range|].
      exists (S k). rewrite run_cons. split; [simpl; lia|]. split.
      * rewrite Hpolls, step_polls by done. cbn. by rewrite <- app_assoc.
      * intros Hr. by rewrite (Hall Hr).
    + exists 0%nat. rewrite run_steps, steps_not_polling by done.
      split; [simpl; lia|]. split; [cbn; by rewrite app_nil_r|].
      intros Hr. unfold polling in Hp. rewrite Hr in Hp. cbn in Hp.
      apply Z.leb_gt in Hp. lia.
Qed.

(** ** Calls of [loop] and batches of readings *)

(** X8. Where the calls of [loop] fall does not matter. Repeating [loop]
    until the readings are used up gives the same machine for every bound
    on the number of calls that is at least the number of readings, namely
    the machine reached by handling the readings one at a time; and
    offering the readings in two batches gives what offering them at once
    gives. *)
Theorem loop_calls_compose ss1 ss2 m fuel :
  (length ss1 <= fuel)%nat ->
  snd (main fuel ss1 m) = fold_left step ss1 m /\
  snd (main fuel ss1 m) = run ss1 m /\
  run (ss1 ++ ss2) m = run ss2 (run ss1 m).
Proof.
  intros Hfuel. split; [by apply main_fuel|]. split.
  - rewrite run_steps. by apply main_fuel.
  - apply run_app.
Qed.

(** ** The trigger and floating point *)

(** X9. The trigger does not see the direction of the acceleration:
    flipping the sign of any of the three channels leaves
    [fabs(aX) + fabs(aY) + fabs(aZ)], and with it the decision, as it
    is. *)
Theorem trigger_ignores_signs nx ny nz s :
  aSum (flip_acceleration nx ny nz s) = aSum s /\
  significant (flip_acceleration nx ny nz s) = significant s.
Proof.
  assert (Hflip : forall b v, fabs (flip b v) = fabs v).
  { intros [] v; [|done]. by destruct v. }
  assert (Hsum : aSum (flip_acceleration nx ny nz s) = aSum s).
  { unfold aSum, flip_acceleration. cbn [acceleration vx vy vz].
    by rewrite !Hflip. }
  split; [done|]. unfold significant. by rewrite Hsum.
Qed.

Lemma fadd_nan_l v : fadd S754_nan v = S754_nan.
Proof. done. Qed.

Lemma fadd_nan_r v : fadd v S754_nan = S754_nan.
Proof. by destruct v. Qed.

Lemma is_nan_eq v : is_nan v = true -> v = S754_nan.
Proof. by destruct v. Qed.

Lemma fge_nan_l v : fge S754_nan v = false.
Proof. by destruct v. Qed.

Lemma fge_nan_r v : fge v S754_nan = false.
Proof. by destruct v. Qed.

(** X10. A NaN never fires the trigger. If one of the three acceleration
    channels of a reading is a NaN, or the threshold is, the comparison
    [aSum >= accelerationThreshold] is false; a running sketch between two
    episodes polls such a reading and stays where it is. *)
Theorem nan_never_triggers s m :
  is_nan (vx (acceleration s)) || is_nan (vy (acceleration s))
  || is_nan (vz (acceleration s)) || is_nan accelerationThreshold = true ->
  significant s = false /\
  (running m = true -> samplesRead m = numSamples ->
   step m s = log (EvGetEvent s) m).
Proof.
  intros Hnan.
  assert (Hsig : significant s = false).
  { unfold significant, aSum.
    destruct (is_nan accelerationThreshold) eqn:Ht.
    { rewrite (is_nan_eq _ Ht). apply fge_nan_r. }
    rewrite orb_false_r in Hnan.
    destruct (is_nan (vz (acceleration s))) eqn:Hz.
    { rewrite (is_nan_eq _ Hz). cbn [fabs SFabs].
      rewrite fadd_nan_r. apply fge_nan_l. }
    rewrite orb_false_r in Hnan.
    destruct (is_nan (vy (acceleration s))) eqn:Hy.
    { rewrite (is_nan_eq _ Hy). cbn [fabs SFabs].
      rewrite fadd_nan_r, fadd_nan_l. apply fge_nan_l. }
    rewrite orb_false_r in Hnan.
    rewrite (is_nan_eq _ Hnan). cbn [fabs SFabs].
    rewrite !fadd_nan_l. apply fge_nan_l. }
  split; [done|]. intros Hr Hk.
  rewrite step_idle by done. unfold wait_body. by rewrite Hsig.
Qed.

Lemma aSum_nonneg s :
  is_nan (vx (acceleration s)) = false ->
  is_nan (vy (acceleration s)) = false ->
  is_nan (vz (acceleration s)) = false ->
  nonneg (aSum s) = true.
Proof.
  intros Hx Hy Hz. unfold aSum.
  repeat apply fadd_nonneg; by apply fabs_nonneg.
Qed.

Lemma fge_nonneg_nonpos v w :
  nonneg v = true -> nonpos w = true -> fge v w = true.
Proof.
  destruct v as [sv|[]| |[] mv ev], w as [sw|[]| |[] mw ew]; done.
Qed.

(** X11. Any threshold that is zero or negative (including minus
    infinity), and not only the 0 of the sketch, switches the filter off:
    every reading whose acceleration channels are numbers reaches it,
    and a running sketch between two episodes starts an episode on the
    first such reading. *)
Theorem nonpositive_threshold_always_triggers s m :
  nonpos accelerationThreshold = true ->
  is_nan (vx (acceleration s)) = false ->
  is_nan (vy (acceleration s)) = false ->
  is_nan (vz (acceleration s)) = false ->
  significant s = true /\
  (running m = true -> samplesRead m = numSamples ->
   step m s = triggered s m).
Proof.
  intros Hthr Hx Hy Hz.
  assert (Hsig : significant s = true).
  { unfold significant.
    apply fge_nonneg_nonpos; [by apply aSum_nonneg|done]. }
  split; [done|]. intros Hr Hk.
  rewrite step_idle by done. unfold wait_body. by rewrite Hsig.
Qed.

End MoreProperties.

(** ** Raising and lowering the threshold *)

Lemma SFleb_trans a b c :
  SFleb a b = true -> SFleb b c = true -> SFleb a c = true.
Proof.
  unfold SFleb, SFcompare.
  destruct a as [sa|sa| |sa ma ea], b as [sb|sb| |sb mb eb],
           c as [sc|sc| |sc mc ec]; try done;
    try destruct sa; try destruct sb; try destruct sc; try done;
    repeat match goal with
    | |- context [Z.compare ?x ?y] => destruct (Z.compare_spec x y)
    | |- context [Pos.compare_cont Eq ?x ?y] =>
        change (Pos.compare_cont Eq x y) with (Pos.compare x y);
        destruct (Pos.compare_spec x y)
    end; simpl; intros; first [done | exfalso; lia].
Qed.

(** X12. Lowering the threshold never loses a trigger: a reading that
    reaches a threshold reaches every threshold that is not above it (in
    the order of [>=] on [float]), so the readings that fire the trigger
    at a higher threshold are among those that fire it at a lower one. *)
Theorem lower_threshold_keeps_triggers thr thr' s :
  fge thr thr' = true ->
  significant thr s = true -> significant thr' s = true.
Proof.
  unfold significant, fge. intros Hle Hs. by eapply SFleb_trans.
Qed.

(** * The further theorems at work *)

Lemma machine_ready_is_ready : ready machine_ready.
Proof. repeat split; vm_compute; reflexivity. Qed.

Lemma episode_shake_ok : episode_ok float_half episode_shake.
Proof.
  split; [|split]; try (vm_compute; reflexivity).
  constructor; [vm_compute; reflexivity|constructor].
Qed.

Lemma episode_shake_turn_ok : episode_ok float_half episode_shake_turn.
Proof.
  split; [|split]; try (vm_compute; reflexivity). constructor.
Qed.

Lemma quiet_readings_change_nothing_witness :
  running machine_ready = true /\
  Forall (fun x => significant float_half x = false)
    [sample_rest; sample_rest] /\
  run float_half Invoke_ok [sample_rest; sample_rest] machine_ready
  = log_polls [sample_rest; sample_rest] machine_ready.
Proof.
  assert (Hr : running machine_ready = true) by (vm_compute; reflexivity).
  assert (Hk : samplesRead machine_ready = numSamples)
    by (vm_compute; reflexivity).
  assert (Hq : Forall (fun x => significant float_half x = false)
                 [sample_rest; sample_rest])
    by (repeat constructor; vm_compute; reflexivity).
  split; [exact Hr|]. split; [exact Hq|].
  exact (proj1 (quiet_readings_change_nothing float_half Invoke_ok
                  [sample_rest; sample_rest] machine_ready Hr Hk Hq)).
Defined.

Lemma report_needs_six_scores_witness :
  running (setup schema_version board_five_classes) = true /\
  snd (call_Invoke Invoke_ok (setup schema_version board_five_classes))
  = kTfLiteOk /\
  GAITS !! 5%nat = Some "Turning"%string /\
  status (run_inference Invoke_ok (setup schema_version board_five_classes))
  = Undefined /\
  status (run_inference Invoke_ok machine_ready) = Running.
Proof.
  assert (Hr5 : running (setup schema_version board_five_classes) = true)
    by (vm_compute; reflexivity).
  assert (Hok5 : snd (call_Invoke Invoke_ok
                        (setup schema_version board_five_classes))
                 = kTfLiteOk) by reflexivity.
  assert (Hl5 : GAITS !! length
                  (tflOutputTensor
                     (fst (call_Invoke Invoke_ok
                             (setup schema_version board_five_classes))))
                = Some "Turning"%string) by (vm_compute; reflexivity).
  assert (Hr : running machine_ready = true) by (vm_compute; reflexivity).
  assert (Hok : snd (call_Invoke Invoke_ok machine_ready) = kTfLiteOk)
    by reflexivity.
  assert (Hlen : NUM_GAITS
                 <= Z.of_nat
                      (length
                         (tflOutputTensor
                            (fst (call_Invoke Invoke_ok machine_ready)))))
    by (vm_compute; discriminate).
  destruct (report_needs_six_scores Invoke_ok
              (setup schema_version board_five_classes) Hr5 Hok5)
    as (_ & Hshort & _).
  destruct (Hshort _ Hl5) as (_ & Hst5 & _).
  destruct (report_needs_six_scores Invoke_ok machine_ready Hr Hok)
    as (Hfull & _).
  destruct (Hfull Hlen) as [Hst _].
  split; [exact Hr5|]. split; [exact Hok5|]. split; [reflexivity|].
  split; [exact Hst5|exact Hst].
Defined.

Lemma one_loop_call_one_episode_witness :
  ready machine_ready /\ episode_ok float_half episode_shake /\
  loop float_half Invoke_ok (episode_readings episode_shake ++ [sample_turn])
    machine_ready
  = ([sample_turn],
     run float_half Invoke_ok (episode_readings episode_shake) machine_ready)
  /\
  status
    (run float_half Invoke_ok (episode_readings episode_shake) machine_ready)
  = Running /\
  status
    (run float_half Invoke_error (episode_readings episode_shake)
       machine_ready)
  = Halted.
Proof.
  assert (Hout : NUM_GAITS
                 <= Z.of_nat (length (tflOutputTensor machine_ready)))
    by (vm_compute; discriminate).
  assert (Hok : episode_answer Invoke_ok episode_shake machine_ready
                = kTfLiteOk) by reflexivity.
  assert (Hfail : episode_answer Invoke_error episode_shake machine_ready
                  <> kTfLiteOk) by (intros H; discriminate H).
  destruct (one_loop_call_one_episode float_half Invoke_ok episode_shake
              [sample_turn] machine_ready machine_ready_is_ready
              episode_shake_ok Hout) as (Hloop & _ & _ & Hreturns & _).
  destruct (one_loop_call_one_episode float_half Invoke_error episode_shake
              [sample_turn] machine_ready machine_ready_is_ready
              episode_shake_ok Hout) as (_ & _ & _ & _ & Hhalts).
  split; [exact machine_ready_is_ready|]. split; [exact episode_shake_ok|].
  split; [exact Hloop|].
  split; [exact (proj1 (Hreturns Hok))|exact (proj1 (Hhalts Hfail))].
Defined.

Lemma episodes_in_order_witness :
  ready machine_ready /\
  Forall (episode_ok float_half) [episode_shake; episode_shake_turn] /\
  invokes_of
    (trace
       (run float_half Invoke_ok
          (concat (map episode_readings [episode_shake; episode_shake_turn]))
          machine_ready))
  = invokes_of (trace machine_ready)
    ++ map (fun e => rows (ep_window e)) [episode_shake; episode_shake_turn].
Proof.
  assert (Hes : Forall (episode_ok float_half)
                  [episode_shake; episode_shake_turn]).
  { constructor; [exact episode_shake_ok|].
    constructor; [exact episode_shake_turn_ok|constructor]. }
  assert (Hout : NUM_GAITS <= Z.of_nat (length (tflOutputTensor machine_ready)))
    by (vm_compute; discriminate).
  split; [exact machine_ready_is_ready|]. split; [exact Hes|].
  exact (proj2 (episodes_in_order float_half Invoke_ok
                  [episode_shake; episode_shake_turn] machine_ready
                  machine_ready_is_ready Hout (fun _ _ => eq_refl) Hes)).
Defined.

Lemma first_episode_trace_witness :
  mpu_begin board_ok = true /\
  model_version board_ok = schema_version /\
  episode_ok float_half episode_shake /\
  status
    (sketch float_half schema_version Invoke_ok board_ok
       (episode_readings episode_shake)) = Running /\
  samplesRead
    (sketch float_half schema_version Invoke_ok board_ok
       (episode_readings episode_shake)) = numSamples.
Proof.
  assert (Hlen : length (model_input board_ok) = window_floats)
    by (vm_compute; reflexivity).
  assert (Hscores :
    overwrite
      (output_after
         (Invoke_ok
            (trace (setup schema_version board_ok)
             ++ map EvGetEvent (episode_readings episode_shake))
            (rows (ep_window episode_shake))))
      (model_output board_ok)
    = float_zero :: float_zero :: float_zero :: float_zero :: float_zero ::
      float_zero :: []) by reflexivity.
  destruct (first_episode_trace float_half schema_version Invoke_ok board_ok
              episode_shake _ _ _ _ _ _ _ eq_refl eq_refl Hlen
              episode_shake_ok eq_refl Hscores) as (_ & Hst & Hk & _).
  split; [reflexivity|]. split; [reflexivity|].
  split; [exact episode_shake_ok|]. split; [exact Hst|exact Hk].
Defined.

Lemma row_store_bounds_witness :
  0 <= 2 < numSamples /\
  is_Some (write_row (repeat float_zero 10) 2 vec_zero) /\
  ~ is_Some (write_row (repeat float_zero 10) 3 vec_zero).
Proof.
  assert (H2 : 0 <= 2 < numSamples) by (unfold numSamples; lia).
  assert (H3 : 0 <= 3 < numSamples) by (unfold numSamples; lia).
  split; [exact H2|]. split.
  - apply (proj1 (row_store_bounds (repeat float_zero 10) 2 vec_zero H2)).
    vm_compute. discriminate.
  - intros Hs.
    apply (proj1 (row_store_bounds (repeat float_zero 10) 3 vec_zero H3))
      in Hs.
    vm_compute in Hs. exact (Hs eq_refl).
Defined.


Lemma every_reading_polled_once_witness :
  0 <= samplesRead machine_ready <= numSamples /\
  exists k : nat,
    (k <= length episode_turn)%nat /\
    polls_of
      (trace (run accelerationThreshold_default Invoke_ok episode_turn
                machine_ready))
    = polls_of (trace machine_ready) ++ take k episode_turn.
Proof.
  assert (H : 0 <= samplesRead machine_ready <= numSamples)
    by (vm_compute; split; discriminate).
  split; [exact H|].
  destruct (every_reading_polled_once accelerationThreshold_default Invoke_ok
              episode_turn machine_ready H) as (k & Hle & Hp & _).
  exists k. split; [exact Hle|exact Hp].
Defined.

Lemma loop_calls_compose_witness :
  (length [sample_rest; sample_turn] <= 5)%nat /\
  snd (main accelerationThreshold_default Invoke_ok 5
         [sample_rest; sample_turn] machine_ready)
  = run accelerationThreshold_default Invoke_ok [sample_rest; sample_turn]
      machine_ready.
Proof.
  assert (H : (length [sample_rest; sample_turn] <= 5)%nat)
    by (vm_compute; repeat constructor).
  split; [exact H|].
  destruct (loop_calls_compose accelerationThreshold_default Invoke_ok
              [sample_rest; sample_turn] [] machine_ready 5 H)
    as (_ & Hrun & _).
  exact Hrun.
Defined.

Lemma nan_never_triggers_witness :
  is_nan (vx (acceleration sample_nan)) = true /\
  significant float_one sample_nan = false.
Proof.
  split; [reflexivity|].
  exact (proj1 (nan_never_triggers float_one Invoke_ok sample_nan
                  machine_ready eq_refl)).
Defined.

Lemma nonpositive_threshold_always_triggers_witness :
  nonpos (SFopp float_one) = true /\
  significant (SFopp float_one) sample_rest = true.
Proof.
  split; [reflexivity|].
  exact (proj1 (nonpositive_threshold_always_triggers (SFopp float_one)
                  Invoke_ok sample_rest machine_ready
                  eq_refl eq_refl eq_refl eq_refl)).
Defined.

Lemma lower_threshold_keeps_triggers_witness :
  fge float_one float_half = true /\
  significant float_one sample_shake = true /\
  significant float_half sample_shake = true.
Proof.
  assert (Hle : fge float_one float_half = true) by (vm_compute; reflexivity).
  assert (Hs : significant float_one sample_shake = true)
    by (vm_compute; reflexivity).
  split; [exact Hle|]. split; [exact Hs|].
  exact (lower_threshold_keeps_triggers float_one float_half sample_shake
           Hle Hs).
Defined.
